(** * remoteOps: EPR-mediated remote operations on circuit objects

    A shallow embedding of [remoteOps/defs.py] and the properties of its
    register utilities ([get_cregs], [get_qregs]), protocol builders
    ([setAncilla], [buildRemoteCX], ...) and rewriting passes ([addInstr],
    [decompose], [autosubstitute]).

    The Python functions mutate a circuit object and may raise; they are
    embedded in a state-and-exception monad [M] over the circuit in which,
    as in Python, the mutations made before an exception is raised stay
    visible to the caller. *)

From Stdlib Require Import PrimFloat.
From Stdlib Require Import List String Ascii Bool Arith Lia.
Import ListNotations.
Local Open Scope string_scope.
Local Open Scope list_scope.
Local Open Scope nat_scope.

(** ** Data model of the host circuit library *)

Module Qk.

(** A register is compared by the host library through its kind, name and
    size (its [__eq__]); a register handle is therefore this triple. *)
Inductive regkind := QuantumKind | ClassicalKind.

Record Register := mkReg { rkind : regkind; rsize : nat; rname : string }.

Definition QuantumRegister (n : nat) (nm : string) := mkReg QuantumKind n nm.
Definition ClassicalRegister (n : nat) (nm : string) := mkReg ClassicalKind n nm.

(** A qubit or classical bit: a register and an index in it. *)
Record Bit := mkBit { breg : Register; bidx : nat }.

(** Gate parameters are Python floats, that is IEEE 754 binary64 numbers:
    the builders halve and negate them with the rounding of that format
    (halving the smallest subnormal gives zero, negating zero gives the
    negative zero). *)
Definition param := float.

(** [Instruction(name, num_qubits, num_clbits, params)] with the optional
    classical condition set by [c_if]. *)
Record Instruction := mkInstr {
  name : string;
  num_qubits : nat;
  num_clbits : nat;
  params : list param;
  condition : option (Bit * nat)
}.

(** An element of [circ.data]: the tuple (instruction, qargs, cargs);
    [op[0]], [op[1]] and [op[2]] in the source. *)
Definition op : Type := Instruction * list Bit * list Bit.

Definition op0 (o : op) : Instruction := fst (fst o).
Definition op1 (o : op) : list Bit := snd (fst o).
Definition op2 (o : op) : list Bit := snd o.

Record QuantumCircuit := mkCirc {
  qregs : list Register;
  cregs : list Register;
  data : list op
}.

Definition set_data (c : QuantumCircuit) (d : list op) : QuantumCircuit :=
  mkCirc (qregs c) (cregs c) d.

(** The Python values that flow through the dynamically typed arguments of
    the source: [None], a string, a float (a gate parameter), a bit, a
    register handle, a list of bits.  Qubits are given as bit handles, as
    the instructions of a circuit hold them; the integer indices that the
    host library also takes for bits, and integer parameters, are not part
    of this model. *)
Inductive pyval :=
| PyNone
| PyStr (s : string)
| PyNum (x : param)
| PyBit (b : Bit)
| PyReg (r : Register)
| PyBits (l : list Bit).

Inductive exn :=
| CircuitError
| IndexError
| TypeError
| KeyError
| BaseException (msg : string).

Inductive result (A : Type) :=
| Ok (a : A)
| Raise (e : exn).
Arguments Ok {A} a.
Arguments Raise {A} e.

Definition is_raise {A} (r : result A) : bool :=
  match r with Ok _ => false | Raise _ => true end.

(** ** Boolean equalities *)

Definition regkind_eqb (a b : regkind) : bool :=
  match a, b with
  | QuantumKind, QuantumKind | ClassicalKind, ClassicalKind => true
  | _, _ => false
  end.

Definition Register_eqb (a b : Register) : bool :=
  regkind_eqb (rkind a) (rkind b) && Nat.eqb (rsize a) (rsize b)
  && String.eqb (rname a) (rname b).

Definition Bit_eqb (a b : Bit) : bool :=
  Register_eqb (breg a) (breg b) && Nat.eqb (bidx a) (bidx b).

(** Python's [x in l] on a list: some element equal to [x]. *)
Definition str_in (s : string) (l : list string) : bool := existsb (String.eqb s) l.
Definition reg_in (r : Register) (l : list Register) : bool := existsb (Register_eqb r) l.
Definition bit_in (b : Bit) (l : list Bit) : bool := existsb (Bit_eqb b) l.

Fixpoint bits_nodup (l : list Bit) : bool :=
  match l with
  | [] => true
  | b :: t => negb (bit_in b t) && bits_nodup t
  end.

(** ** The monad of circuit-mutating, possibly raising code *)

Definition M (A : Type) : Type := QuantumCircuit -> result A * QuantumCircuit.

Definition ret {A} (a : A) : M A := fun c => (Ok a, c).
Definition raise {A} (e : exn) : M A := fun c => (Raise e, c).

Definition bind {A B} (m : M A) (f : A -> M B) : M B :=
  fun c => match m c with
           | (Ok a, c') => f a c'
           | (Raise e, c') => (Raise e, c')
           end.

Definition lift {A} (r : result A) : M A := fun c => (r, c).

(** [try: m except: raise e] with a bare [except]. *)
Definition try_except_raise {A} (m : M A) (e : exn) : M A :=
  fun c => match m c with
           | (Ok a, c') => (Ok a, c')
           | (Raise _, c') => (Raise e, c')
           end.

End Qk.

Export Qk.

Declare Scope py_scope.
Delimit Scope py_scope with py.
Notation "x <- m ;; k" := (bind m (fun x => k))
  (at level 61, m at next level, right associativity) : py_scope.
Notation "m ;; k" := (bind m (fun _ => k))
  (at level 61, right associativity) : py_scope.
Local Open Scope py_scope.

(** ** The host library's circuit methods used by the source *)

Module Circ.

(** [circ.has_register(r)]: [r] is a quantum register among [circ.qregs] or
    a classical register among [circ.cregs]; anything that is not a register
    handle (a string, [None]) answers [False]. *)
Definition has_register (c : QuantumCircuit) (v : pyval) : bool :=
  match v with
  | PyReg r =>
      match rkind r with
      | QuantumKind => reg_in r (qregs c)
      | ClassicalKind => reg_in r (cregs c)
      end
  | _ => false
  end.

(** [circ.add_register(r)]: refused when a register of that name is already
    on the circuit, otherwise appended to the registers of its kind. *)
Definition add_register (r : Register) : M unit :=
  fun c =>
    if str_in (rname r) (map rname (qregs c ++ cregs c))
    then (Raise CircuitError, c)
    else match rkind r with
         | QuantumKind => (Ok tt, mkCirc (qregs c ++ [r]) (cregs c) (data c))
         | ClassicalKind => (Ok tt, mkCirc (qregs c) (cregs c ++ [r]) (data c))
         end.

(** A bit belongs to the circuit as a qubit (resp. classical bit). *)
Definition is_qubit_of (c : QuantumCircuit) (b : Bit) : bool :=
  regkind_eqb (rkind (breg b)) QuantumKind && reg_in (breg b) (qregs c)
  && Nat.ltb (bidx b) (rsize (breg b)).

Definition is_clbit_of (c : QuantumCircuit) (b : Bit) : bool :=
  regkind_eqb (rkind (breg b)) ClassicalKind && reg_in (breg b) (cregs c)
  && Nat.ltb (bidx b) (rsize (breg b)).

(** The checks of [circ.append] once its arguments are bits: the arities of
    the instruction, no duplicate qubit, every bit on the circuit. *)
Definition append_ok (c : QuantumCircuit) (i : Instruction) (qs cs : list Bit) : bool :=
  Nat.eqb (List.length qs) (num_qubits i) && Nat.eqb (List.length cs) (num_clbits i)
  && bits_nodup qs && forallb (is_qubit_of c) qs && forallb (is_clbit_of c) cs.

Definition append_bits (i : Instruction) (qs cs : list Bit) : M unit :=
  fun c =>
    if append_ok c i qs cs
    then (Ok tt, set_data c (data c ++ [(i, qs, cs)]))
    else (Raise CircuitError, c).

(** Iterating a value given as [qargs] or [cargs]: a register yields its
    bits, a string its characters, a list of bits its elements, and [None]
    stands for no argument. *)
Definition reg_bits (r : Register) : list Bit := map (mkBit r) (seq 0 (rsize r)).

Fixpoint str_chars (s : string) : list pyval :=
  match s with
  | EmptyString => []
  | String a t => PyStr (String a EmptyString) :: str_chars t
  end.

Definition py_iter (v : pyval) : result (list pyval) :=
  match v with
  | PyReg r => Ok (map PyBit (reg_bits r))
  | PyBits l => Ok (map PyBit l)
  | PyStr s => Ok (str_chars s)
  | PyNone => Ok []
  | _ => Raise TypeError
  end.

(** The conversion of one argument to a bit, for an argument that is one
    value: a bit handle is one; [None], a float and a character are refused
    with a [CircuitError].  The source itself only passes such arguments.
    The host library also takes a register or a list of bits for one
    argument and expands it into its bits; that expansion is not modelled,
    and the statements below in which an operand given by the caller ranges
    over all values ask for a [single_value]. *)
Definition as_bit (v : pyval) : result Bit :=
  match v with
  | PyBit b => Ok b
  | _ => Raise CircuitError
  end.

Fixpoint as_bits (l : list pyval) : result (list Bit) :=
  match l with
  | [] => Ok []
  | v :: t =>
      match as_bit v with
      | Raise e => Raise e
      | Ok b => match as_bits t with
                | Raise e => Raise e
                | Ok bs => Ok (b :: bs)
                end
      end
  end.

(** [circ.append(instruction, qargs, cargs)] on argument lists. *)
Definition append (i : Instruction) (qargs cargs : list pyval) : M unit :=
  qs <- lift (as_bits qargs) ;;
  cs <- lift (as_bits cargs) ;;
  append_bits i qs cs.

(** [v[i]] as the source uses it: on a register handle, a string and a
    list of bits. *)
Definition subscript (v : pyval) (i : nat) : result pyval :=
  match v with
  | PyReg r => if Nat.ltb i (rsize r) then Ok (PyBit (mkBit r i)) else Raise IndexError
  | PyStr s => match String.get i s with
               | Some a => Ok (PyStr (String a EmptyString))
               | None => Raise IndexError
               end
  | PyBits l => match nth_error l i with
                | Some b => Ok (PyBit b)
                | None => Raise IndexError
                end
  | _ => Raise TypeError
  end.

(** [phi/2] and [-phi/2] (that is, [(-phi)/2]) in Python: the float
    division on a float, a [TypeError] on anything else. *)
Definition half (v : pyval) : result param :=
  match v with
  | PyNum x => Ok (x / 2)%float
  | _ => Raise TypeError
  end.

Definition neg_half (v : pyval) : result param :=
  match v with
  | PyNum x => Ok (- x / 2)%float
  | _ => Raise TypeError
  end.

(** A value given as the parameter of a gate method: the host library
    refuses what is no number with a [CircuitError]. *)
Definition as_param (v : pyval) : result param :=
  match v with
  | PyNum x => Ok x
  | _ => Raise CircuitError
  end.

(** The gate methods; each appends one standard instruction. *)
Definition gate (nm : string) (ps : list param) : Instruction := mkInstr nm 1 0 ps None.

Definition h (q : pyval) : M unit := append (gate "h" []) [q] [].
Definition x (q : pyval) : M unit := append (gate "x" []) [q] [].
Definition z (q : pyval) : M unit := append (gate "z" []) [q] [].
Definition rz (theta : result param) (q : pyval) : M unit :=
  t <- lift theta ;; append (gate "rz" [t]) [q] [].
Definition cnot (a b : pyval) : M unit := append (mkInstr "cx" 2 0 [] None) [a; b] [].
Definition swap (a b : pyval) : M unit := append (mkInstr "swap" 2 0 [] None) [a; b] [].
Definition measure (q : pyval) (cb : result pyval) : M unit :=
  cv <- lift cb ;; append (mkInstr "measure" 1 1 [] None) [q] [cv].

(** [.c_if(bit, val)] on the result of a gate method.  The host library
    first looks for the classical bit on the circuit and raises a
    [CircuitError] when it is not there (a qubit, a character); the
    instruction then stays as the gate method appended it.  Otherwise the
    condition is set on that instruction, the last of [circ.data].  The
    source conditions on single bits only, [creg[i]]. *)
Definition with_condition (cnd : Bit * nat) (o : op) : op :=
  (mkInstr (name (op0 o)) (num_qubits (op0 o)) (num_clbits (op0 o))
           (params (op0 o)) (Some cnd), op1 o, op2 o).

Definition set_last_condition (cnd : Bit * nat) (d : list op) : list op :=
  match rev d with
  | [] => []
  | o :: r => rev r ++ [with_condition cnd o]
  end.

Definition c_if (cb : result pyval) (val : nat) : M unit :=
  cv <- lift cb ;;
  fun c =>
    match cv with
    | PyBit b =>
        if is_clbit_of c b
        then (Ok tt, set_data c (set_last_condition (b, val) (data c)))
        else (Raise CircuitError, c)
    | _ => (Raise CircuitError, c)
    end.

(** [circ.copy()] followed by [.data = []]. *)
Definition emptied (c : QuantumCircuit) : QuantumCircuit := set_data c [].

End Circ.

(** ** defs.py: register utilities *)

Definition is_None (v : pyval) : bool :=
  match v with PyNone => true | _ => false end.

(** [get_cregs(circ, creg)]: returns [(creg, reg_added)]. *)
Definition get_cregs (creg : pyval) : M (pyval * bool) :=
  fun circ =>
    let has_creg :=
      match creg with
      | PyStr s => Circ.has_register circ (PyReg (ClassicalRegister 2 s))
      | _ => Circ.has_register circ creg
      end in
    if is_None creg || negb has_creg
    then (Circ.add_register (ClassicalRegister 2 "c_epr") ;;
          ret (PyReg (ClassicalRegister 2 "c_epr"), true)) circ
    else ret (creg, false) circ.

(** [get_qregs(circ, qreg)]: returns [(qreg, reg_added)]. *)
Definition get_qregs (qreg : pyval) : M (pyval * bool) :=
  fun circ =>
    let has_qreg :=
      match qreg with
      | PyStr s => Circ.has_register circ (PyReg (QuantumRegister 2 s))
      | _ => Circ.has_register circ qreg
      end in
    if is_None qreg || negb has_qreg
    then (Circ.add_register (QuantumRegister 2 "q_epr") ;;
          ret (PyReg (QuantumRegister 2 "q_epr"), true)) circ
    else ret (qreg, false) circ.

(** ** defs.py: protocol builders *)

Import Circ.

Definition setAncilla (epr0 epr1 : pyval) : M unit :=
  h epr0 ;;
  cnot epr0 epr1.

Definition buildRemoteCRZ (phi ctrl targ epr0 epr1 creg : pyval) : M unit :=
  rz (half phi) ctrl ;;
  rz (half phi) targ ;;
  cnot ctrl epr0 ;;
  measure epr0 (subscript creg 0) ;;
  x epr1 ;; c_if (subscript creg 0) 1 ;;
  cnot targ epr1 ;;
  rz (neg_half phi) epr1 ;;
  h epr1 ;;
  measure epr1 (subscript creg 1) ;;
  z ctrl ;; c_if (subscript creg 1) 1 ;;
  z targ ;; c_if (subscript creg 1) 1.

Definition buildRemoteZZ (phi qb1 qb2 epr0 epr1 creg : pyval) : M unit :=
  cnot qb1 epr0 ;;
  cnot qb2 epr1 ;;
  measure epr0 (subscript creg 0) ;;
  x epr1 ;; c_if (subscript creg 1) 1 ;;
  rz (as_param phi) epr1 ;;
  h epr1 ;;
  measure epr1 (subscript creg 1) ;;
  z qb1 ;; c_if (subscript creg 1) 1 ;;
  z qb2 ;; c_if (subscript creg 1) 1 ;;
  x epr0 ;; c_if (subscript creg 0) 1 ;;
  x epr1 ;; c_if (subscript creg 1) 1.

Definition buildRemoteCX (ctrl targ epr0 epr1 creg : pyval) : M unit :=
  cnot ctrl epr0 ;;
  cnot epr1 targ ;;
  measure epr0 (subscript creg 0) ;;
  x epr1 ;; c_if (subscript creg 0) 1 ;;
  x targ ;; c_if (subscript creg 0) 1 ;;
  h epr1 ;;
  measure epr1 (subscript creg 1) ;;
  z ctrl ;; c_if (subscript creg 1) 1 ;;
  x epr0 ;; c_if (subscript creg 0) 1 ;;
  x epr1 ;; c_if (subscript creg 1) 1.

Definition buildTeleportation (source targ epr0 epr1 creg : pyval) : M unit :=
  cnot source epr0 ;;
  h source ;;
  measure source (subscript creg 0) ;;
  measure epr0 (subscript creg 1) ;;
  x epr1 ;; c_if (subscript creg 1) 1 ;;
  z epr1 ;; c_if (subscript creg 0) 1 ;;
  x source ;; c_if (subscript creg 0) 1 ;;
  x epr0 ;; c_if (subscript creg 1) 1 ;;
  swap epr1 targ.

(** ** defs.py: addInstr *)

(** The dictionary [instrSet], in the order it is written. *)
Definition instrSet (params : list param) : list (string * Instruction) :=
  [ ("RemoteCX",  mkInstr "RemoteCX"  4 2 params None);
    ("RemoteRZZ", mkInstr "RemoteRZZ" 4 2 params None);
    ("RemoteCRZ", mkInstr "RemoteCRZ" 4 2 params None);
    ("Teleport",  mkInstr "Teleport"  4 2 params None);
    ("GenEPR",    mkInstr "GenEPR"    2 0 params None) ].

(** [d[key]] on a dictionary. *)
Fixpoint dict_get (d : list (string * Instruction)) (key : string) : result Instruction :=
  match d with
  | [] => Raise KeyError
  | (k, v) :: t => if String.eqb k key then Ok v else dict_get t key
  end.

Definition undefined_instruction : exn := BaseException "Undefined instruction!".

Definition addInstr (nm : string) (qb1 qb2 : pyval) (params : list param)
    (epr_creg epr_qreg : pyval) : M unit :=
  cr <- get_cregs epr_creg ;;
  qr <- get_qregs epr_qreg ;;
  let creg := fst cr in
  let qreg := fst qr in
  q0 <- lift (subscript qreg 0) ;;
  q1 <- lift (subscript qreg 1) ;;
  let qargs := [qb1; qb2; q0; q1] in
  (gen <- lift (dict_get (instrSet params) "GenEPR") ;;
   qs <- lift (py_iter qreg) ;;
   append gen qs []) ;;
  if negb (String.eqb nm "GenEPR")
  then try_except_raise
         (i <- lift (dict_get (instrSet params) nm) ;;
          cs <- lift (py_iter creg) ;;
          append i qargs cs)
         undefined_instruction
  else ret tt.

(** ** defs.py: decompose *)

(** The locals of the rewriting loops. *)
Record loop_state := mkLoop {
  circuitChunks : list op;
  idxStart : nat;
  tempCirc : QuantumCircuit
}.

(** [l[a:b]] and [l[a:]] for indices that are not negative. *)
Definition slice (l : list op) (a b : nat) : list op := firstn (b - a) (skipn a l).
Definition slice_from (l : list op) (a : nat) : list op := skipn a l.

(** [for idx, op in enumerate(l)], stopped by the first exception. *)
Fixpoint for_enumerate (body : loop_state -> nat -> op -> result loop_state)
    (idx : nat) (l : list op) (st : loop_state) : result loop_state :=
  match l with
  | [] => Ok st
  | o :: t =>
      match body st idx o with
      | Raise e => Raise e
      | Ok st' => for_enumerate body (S idx) t st'
      end
  end.

(** [op[0].params + op[1] + [op[2]]]. *)
Definition star_args (o : op) : list pyval :=
  map PyNum (params (op0 o)) ++ map PyBit (op1 o) ++ [PyBits (op2 o)].

(** [f(tempCirc, *args)]: a wrong number of positional arguments is a
    [TypeError]. *)
Definition call_buildRemoteCX (args : list pyval) : M unit :=
  match args with
  | [a; b; c; d; e] => buildRemoteCX a b c d e
  | _ => raise TypeError
  end.

Definition call_buildRemoteZZ (args : list pyval) : M unit :=
  match args with
  | [p; a; b; c; d; e] => buildRemoteZZ p a b c d e
  | _ => raise TypeError
  end.

Definition call_buildRemoteCRZ (args : list pyval) : M unit :=
  match args with
  | [p; a; b; c; d; e] => buildRemoteCRZ p a b c d e
  | _ => raise TypeError
  end.

Definition call_buildTeleportation (args : list pyval) : M unit :=
  match args with
  | [a; b; c; d; e] => buildTeleportation a b c d e
  | _ => raise TypeError
  end.

(** [setAncilla(circ, epr0, epr1, creg=None)] takes two or three. *)
Definition call_setAncilla (args : list pyval) : M unit :=
  match args with
  | [a; b] => setAncilla a b
  | [a; b; _] => setAncilla a b
  | _ => raise TypeError
  end.

(** The [if]/[elif] chain on [obj.name]; it has no final [else]. *)
Definition dispatch (nm : string) (args : list pyval) : M unit :=
  if String.eqb nm "RemoteCX" then call_buildRemoteCX args
  else if String.eqb nm "RemoteRZZ" then call_buildRemoteZZ args
  else if String.eqb nm "RemoteCRZ" then call_buildRemoteCRZ args
  else if String.eqb nm "Teleport" then call_buildTeleportation args
  else if String.eqb nm "GenEPR" then call_setAncilla args
  else ret tt.

Definition decompose_body (circ emptyCirc : QuantumCircuit) (gates : list string)
    (st : loop_state) (idx : nat) (o : op) : result loop_state :=
  let obj := op0 o in
  if str_in (name obj) gates
  then
    let chunks := circuitChunks st ++ slice (data circ) (idxStart st) idx in
    let args := star_args o in
    match dispatch (name obj) args (tempCirc st) with
    | (Raise e, _) => Raise e
    | (Ok _, tmp) => Ok (mkLoop (chunks ++ data tmp) (idx + 1) emptyCirc)
    end
  else Ok st.

Definition default_gates : list string :=
  ["RemoteCX"; "RemoteRZZ"; "RemoteCRZ"; "Teleport"; "GenEPR"].

Definition decompose (gates : list string) : M unit :=
  fun circ =>
    let emptyCirc := emptied circ in
    match for_enumerate (decompose_body circ emptyCirc gates) 0 (data circ)
            (mkLoop [] 0 emptyCirc) with
    | Raise e => (Raise e, circ)
    | Ok st => (Ok tt, set_data circ (circuitChunks st ++ slice_from (data circ) (idxStart st)))
    end.

(** ** defs.py: autosubstitute *)

(** [op[1][0] in reglist[0] and op[1][1] in reglist[1]], or the same with
    the two operands exchanged. *)
Definition straddles (reglist : list Bit * list Bit) (a b : Bit) : bool :=
  if bit_in a (fst reglist) && bit_in b (snd reglist) then true
  else if bit_in b (fst reglist) && bit_in a (snd reglist) then true
  else false.

Definition autosubstitute_body (circ emptyCirc : QuantumCircuit)
    (reglist : list Bit * list Bit) (gates : list string) (creg qreg : pyval)
    (st : loop_state) (idx : nat) (o : op) : result loop_state :=
  let obj := op0 o in
  match op1 o with
  | [a; b] =>
      let substitute := straddles reglist a b in
      if str_in (name obj) gates && substitute
      then
        let chunks := circuitChunks st ++ slice (data circ) (idxStart st) idx in
        match (if String.eqb (name obj) "cx"
               then addInstr "RemoteCX" (PyBit a) (PyBit b) [] creg qreg
               else ret tt) (tempCirc st) with
        | (Raise e, _) => Raise e
        | (Ok _, tmp) => Ok (mkLoop (chunks ++ data tmp) (idx + 1) emptyCirc)
        end
      else Ok st
  | _ => Ok st
  end.

Definition autosubstitute (reglist : list Bit * list Bit) (gates : list string)
    (epr_qreg epr_creg : pyval) : M unit :=
  cr <- get_cregs epr_creg ;;
  qr <- get_qregs epr_qreg ;;
  let creg := fst cr in
  let qreg := fst qr in
  fun circ =>
    let emptyCirc := emptied circ in
    match for_enumerate (autosubstitute_body circ emptyCirc reglist gates creg qreg)
            0 (data circ) (mkLoop [] 0 emptyCirc) with
    | Raise e => (Raise e, circ)
    | Ok st => (Ok tt, set_data circ (circuitChunks st ++ slice_from (data circ) (idxStart st)))
    end.

(** ** What each loop computes, instruction by instruction *)

(** The instructions a computation leaves in a scratch circuit. *)
Definition run_on (tmp : QuantumCircuit) (m : M unit) : result (list op) :=
  match m tmp with
  | (Ok _, t) => Ok (data t)
  | (Raise e, _) => Raise e
  end.

(** What [decompose] puts in place of one instruction. *)
Definition expansion (circ : QuantumCircuit) (gates : list string) (o : op) : result (list op) :=
  if str_in (name (op0 o)) gates
  then run_on (emptied circ) (dispatch (name (op0 o)) (star_args o))
  else Ok [o].

(** What [autosubstitute] puts in place of one instruction, the registers
    being resolved to [creg] and [qreg]. *)
Definition targeted (reglist : list Bit * list Bit) (gates : list string) (o : op) : bool :=
  match op1 o with
  | [a; b] => str_in (name (op0 o)) gates && straddles reglist a b
  | _ => false
  end.

Definition substitution (circ : QuantumCircuit) (reglist : list Bit * list Bit)
    (gates : list string) (creg qreg : pyval) (o : op) : result (list op) :=
  match op1 o with
  | [a; b] =>
      if str_in (name (op0 o)) gates && straddles reglist a b
      then run_on (emptied circ)
             (if String.eqb (name (op0 o)) "cx"
              then addInstr "RemoteCX" (PyBit a) (PyBit b) [] creg qreg
              else ret tt)
      else Ok [o]
  | _ => Ok [o]
  end.

(** The chunks of a whole sequence, in order, up to the first exception. *)
Fixpoint splice_all (f : op -> result (list op)) (l : list op) : result (list op) :=
  match l with
  | [] => Ok []
  | o :: t =>
      match f o with
      | Raise e => Raise e
      | Ok ch =>
          match splice_all f t with
          | Raise e => Raise e
          | Ok r => Ok (ch ++ r)
          end
      end
  end.

(** The instruction sequence a pass produces, or the exception it raises. *)
Definition output (r : result unit * QuantumCircuit) : result (list op) :=
  match r with
  | (Ok _, c) => Ok (data c)
  | (Raise e, _) => Raise e
  end.

(** What a loop has produced once the trailing instructions are flushed,
    and a chunk sequence placed after what is already there. *)
Definition flushed (d : list op) (r : result loop_state) : result (list op) :=
  match r with
  | Ok st => Ok (circuitChunks st ++ slice_from d (idxStart st))
  | Raise e => Raise e
  end.

Definition after (acc : list op) (r : result (list op)) : result (list op) :=
  match r with
  | Ok l => Ok (acc ++ l)
  | Raise e => Raise e
  end.

(** ** The primitive instructions, as the gate methods append them *)

Definition CNOT (a b : Bit) : op := (mkInstr "cx" 2 0 [] None, [a; b], []).
Definition HADAMARD (a : Bit) : op := (mkInstr "h" 1 0 [] None, [a], []).
Definition MEASURE (a cb : Bit) : op := (mkInstr "measure" 1 1 [] None, [a], [cb]).
Definition X_IF (cb : Bit) (a : Bit) : op := (mkInstr "x" 1 0 [] (Some (cb, 1)), [a], []).
Definition Z_IF (cb : Bit) (a : Bit) : op := (mkInstr "z" 1 0 [] (Some (cb, 1)), [a], []).

(** ** The stages of addInstr *)

(** The instruction appended first. *)
Definition GenEPR_op (params : list param) (e0 e1 : Bit) : op :=
  (mkInstr "GenEPR" 2 0 params None, [e0; e1], []).

(** What [addInstr] does after the [GenEPR] instruction is appended. *)
Definition addInstr_tail (nm : string) (params : list param) (creg : pyval)
    (qargs : list pyval) : M unit :=
  if negb (String.eqb nm "GenEPR")
  then try_except_raise
         (i <- lift (dict_get (instrSet params) nm) ;;
          cs <- lift (py_iter creg) ;;
          append i qargs cs)
         undefined_instruction
  else ret tt.

(** The exceptions raised before the name is looked up. *)
Definition early_failure (e : exn) : Prop :=
  e = CircuitError \/ e = IndexError \/ e = TypeError.

(** ** Kinds of instructions *)

(** The kinds of the instructions that the builders append. *)
Definition primitive_kinds : list string :=
  ["h"; "cx"; "rz"; "measure"; "x"; "z"; "swap"].

Definition kind_in (kinds : list string) (o : op) : bool := str_in (name (op0 o)) kinds.

(** A computation keeps a property of the instruction sequence: whatever
    its outcome, the property holds afterwards if it held before. *)
Definition keeps (I : list op -> Prop) {A} (m : M A) : Prop :=
  forall c r c', m c = (r, c') -> I (data c) -> I (data c').

Definition all_primitive (d : list op) : Prop :=
  Forall (fun o => In (name (op0 o)) primitive_kinds) d.

(** An instruction whose kind is asked for but is none of the five macro
    kinds. *)
Definition other_kind (gates : list string) (o : op) : bool :=
  kind_in gates o && negb (kind_in default_gates o).

(** ** Partitions and unordered arguments *)

(** Two lists with the same elements, whatever their order and
    repetitions: the same set. *)
Definition same_elements {A} (l1 l2 : list A) : Prop := forall x, In x l1 <-> In x l2.




(** [autosubstitute] once the registers are resolved. *)
Definition autosubstitute_splice (reglist : list Bit * list Bit) (gates : list string)
    (creg qreg : pyval) : M unit :=
  fun circ =>
    match splice_all (substitution circ reglist gates creg qreg) (data circ) with
    | Ok r => (Ok tt, set_data circ r)
    | Raise e => (Raise e, circ)
    end.

(** ** Concrete circuits used in the examples *)

Module Ex.

Definition q : Register := QuantumRegister 2 "q".
Definition q_epr : Register := QuantumRegister 2 "q_epr".
Definition c_epr : Register := ClassicalRegister 2 "c_epr".

Definition q0 := mkBit q 0.
Definition q1 := mkBit q 1.
Definition e0 := mkBit q_epr 0.
Definition e1 := mkBit q_epr 1.
Definition c0 := mkBit c_epr 0.
Definition c1 := mkBit c_epr 1.

Definition bare : QuantumCircuit := mkCirc [q] [] [].
Definition provisioned : QuantumCircuit := mkCirc [q; q_epr] [c_epr] [].

Definition cx_op (a b : Bit) : op := (mkInstr "cx" 2 0 [] None, [a; b], []).
Definition cz_op (a b : Bit) : op := (mkInstr "cz" 2 0 [] None, [a; b], []).
Definition h_op (a : Bit) : op := (mkInstr "h" 1 0 [] None, [a], []).
Definition remote_cx_op : op :=
  (mkInstr "RemoteCX" 4 2 [] None, [q0; q1; e0; e1], [c0; c1]).

(** A three-qubit register split into the partitions [r0, r2] and [r1]. *)
Definition r : Register := QuantumRegister 3 "r".
Definition r0 := mkBit r 0.
Definition r1 := mkBit r 1.
Definition r2 := mkBit r 2.

Definition partitioned : QuantumCircuit :=
  mkCirc [r; q_epr] [c_epr]
    [cx_op r0 r1; cx_op r1 r0; cx_op r0 r2; h_op r1].

Definition mixed : QuantumCircuit :=
  mkCirc [q; q_epr] [c_epr] [h_op q0; cx_op q0 q1; remote_cx_op].

End Ex.


(** ** More primitive instructions *)

Definition RZ (theta : param) (a : Bit) : op := (mkInstr "rz" 1 0 [theta] None, [a], []).
Definition SWAP (a b : Bit) : op := (mkInstr "swap" 2 0 [] None, [a; b], []).

(** ** The expansions, written out *)

(** Four qubits and two classical bits on which the four two-qubit builders
    run through: all on the circuit, the first primary qubit other than the
    first ancilla, the second other than the second ancilla. *)
Definition valid_operands (c : QuantumCircuit) (a b e0 e1 c0 c1 : Bit) : bool :=
  is_qubit_of c a && is_qubit_of c b && is_qubit_of c e0 && is_qubit_of c e1
  && is_clbit_of c c0 && is_clbit_of c c1
  && negb (Bit_eqb a e0) && negb (Bit_eqb b e1) && negb (Bit_eqb e1 b).

(** A macro instruction as [addInstr] makes them: the operands of its kind,
    valid on the circuit, one parameter for the two rotations and none
    otherwise. *)
Definition well_formed_macro (c : QuantumCircuit) (o : op) : bool :=
  let nm := name (op0 o) in
  let ps := params (op0 o) in
  if String.eqb nm "GenEPR"
  then match ps, op1 o with
       | [], [e0; e1] => is_qubit_of c e0 && is_qubit_of c e1 && negb (Bit_eqb e0 e1)
       | _, _ => false
       end
  else match op1 o, op2 o with
       | [a; b; e0; e1], c0 :: c1 :: _ =>
           valid_operands c a b e0 e1 c0 c1
           && (if String.eqb nm "RemoteCX" || String.eqb nm "Teleport"
               then match ps with [] => true | _ => false end
               else match ps with [_] => true | _ => false end)
       | _, _ => false
       end.

(** The primitive instructions that stand for a macro instruction, kind by
    kind. *)
Definition macro_sequence (o : op) : list op :=
  let nm := name (op0 o) in
  match params (op0 o), op1 o, op2 o with
  | [], [e0; e1], _ =>
      if String.eqb nm "GenEPR" then [HADAMARD e0; CNOT e0 e1] else []
  | [], [a; b; e0; e1], c0 :: c1 :: _ =>
      if String.eqb nm "RemoteCX"
      then [ CNOT a e0; CNOT e1 b; MEASURE e0 c0; X_IF c0 e1; X_IF c0 b;
             HADAMARD e1; MEASURE e1 c1; Z_IF c1 a; X_IF c0 e0; X_IF c1 e1 ]
      else if String.eqb nm "Teleport"
      then [ CNOT a e0; HADAMARD a; MEASURE a c0; MEASURE e0 c1;
             X_IF c1 e1; Z_IF c0 e1; X_IF c0 a; X_IF c1 e0; SWAP e1 b ]
      else []
  | [phi], [a; b; e0; e1], c0 :: c1 :: _ =>
      if String.eqb nm "RemoteRZZ"
      then [ CNOT a e0; CNOT b e1; MEASURE e0 c0; X_IF c1 e1;
             RZ phi e1; HADAMARD e1; MEASURE e1 c1; Z_IF c1 a; Z_IF c1 b;
             X_IF c0 e0; X_IF c1 e1 ]
      else if String.eqb nm "RemoteCRZ"
      then [ RZ (phi / 2)%float a; RZ (phi / 2)%float b; CNOT a e0; MEASURE e0 c0;
             X_IF c0 e1; CNOT b e1; RZ (- phi / 2)%float e1; HADAMARD e1;
             MEASURE e1 c1; Z_IF c1 a; Z_IF c1 b ]
      else []
  | _, _, _ => []
  end.

(** The whole output of [decompose] with the default kinds. *)
Definition expanded (d : list op) : list op :=
  flat_map (fun o => if kind_in default_gates o then macro_sequence o else [o]) d.

(** ** Arity of a macro instruction *)

(** The number of positional arguments [decompose] passes to the builder
    of a macro instruction is not one the builder takes. *)
Definition wrong_arity (o : op) : bool :=
  let n := List.length (params (op0 o)) + List.length (op1 o) + 1 in
  let nm := name (op0 o) in
  if String.eqb nm "RemoteCX" || String.eqb nm "Teleport" then negb (Nat.eqb n 5)
  else if String.eqb nm "RemoteRZZ" || String.eqb nm "RemoteCRZ" then negb (Nat.eqb n 6)
  else if String.eqb nm "GenEPR" then negb (Nat.eqb n 2) && negb (Nat.eqb n 3)
  else false.

(** ** More example circuits *)

Module Ex2.

Definition remote_zz_op : op :=
  (mkInstr "RemoteRZZ" 4 2 [1.5%float] None, [Ex.q0; Ex.q1; Ex.e0; Ex.e1], [Ex.c0; Ex.c1]).
Definition remote_crz_op : op :=
  (mkInstr "RemoteCRZ" 4 2 [1.5%float] None, [Ex.q0; Ex.q1; Ex.e0; Ex.e1], [Ex.c0; Ex.c1]).
Definition teleport_op : op :=
  (mkInstr "Teleport" 4 2 [] None, [Ex.q0; Ex.q1; Ex.e0; Ex.e1], [Ex.c0; Ex.c1]).
Definition gen_epr_op : op := GenEPR_op [] Ex.e0 Ex.e1.

(** A RemoteRZZ as [addInstr] makes it when no parameter is given. *)
Definition remote_zz_no_param : op :=
  (mkInstr "RemoteRZZ" 4 2 [] None, [Ex.q0; Ex.q1; Ex.e0; Ex.e1], [Ex.c0; Ex.c1]).

Definition all_macros : QuantumCircuit :=
  mkCirc [Ex.q; Ex.q_epr] [Ex.c_epr]
    [ gen_epr_op; Ex.remote_cx_op; Ex.h_op Ex.q0; remote_zz_op; remote_crz_op;
      teleport_op ].

End Ex2.

(** ** Macro insertion *)

(** The four macro kinds that take two primary qubits. *)
Definition two_qubit_macros : list string :=
  ["RemoteCX"; "RemoteRZZ"; "RemoteCRZ"; "Teleport"].

(** The macro instruction [addInstr] appends after the fresh pair. *)
Definition macro_op (nm : string) (params : list param) (a b e0 e1 k0 k1 : Bit) : op :=
  (mkInstr nm 4 2 params None, [a; b; e0; e1], [k0; k1]).

(** ** Properties of the whole circuit kept by a computation *)

Definition preserves (P : QuantumCircuit -> Prop) {A} (m : M A) : Prop :=
  forall c r c', m c = (r, c') -> P c -> P c'.

(** A register of that name is on the circuit. *)
Definition name_in_use (s : string) (c : QuantumCircuit) : bool :=
  str_in s (map rname (qregs c ++ cregs c)).

(** The registers of [c] are those of [c0], in the same order, possibly
    followed by new ones. *)
Definition registers_extend (c0 c : QuantumCircuit) : Prop :=
  (exists l, qregs c = qregs c0 ++ l) /\ (exists l, cregs c = cregs c0 ++ l).

(** ** Appending only *)

(** The instruction sequence [d] is [d0] followed by at least one
    instruction, all of primitive kinds. *)
Definition extended_from (d0 d : list op) : Prop :=
  exists l, d = d0 ++ l /\ l <> [] /\ all_primitive l.

(** From [c] to [c']: the same registers, and the instructions of [c]
    followed by primitive instructions only. *)
Definition only_appended (c c' : QuantumCircuit) : Prop :=
  qregs c' = qregs c /\ cregs c' = cregs c
  /\ exists l, data c' = data c ++ l /\ all_primitive l.

(** The registers are those of [c0]. *)
Definition same_registers (c0 c : QuantumCircuit) : Prop :=
  qregs c = qregs c0 /\ cregs c = cregs c0.

(** ** The substitutions, written out *)

(** What stands for one instruction after [autosubstitute], the
    entanglement registers being the 2-unit registers named [qn] and [cn]. *)
Definition substituted (reglist : list Bit * list Bit) (gates : list string)
    (qn cn : string) (o : op) : list op :=
  match op1 o with
  | [a; b] =>
      if kind_in gates o && straddles reglist a b
      then if String.eqb (name (op0 o)) "cx"
           then [ GenEPR_op [] (mkBit (QuantumRegister 2 qn) 0)
                    (mkBit (QuantumRegister 2 qn) 1);
                  macro_op "RemoteCX" [] a b
                    (mkBit (QuantumRegister 2 qn) 0) (mkBit (QuantumRegister 2 qn) 1)
                    (mkBit (ClassicalRegister 2 cn) 0) (mkBit (ClassicalRegister 2 cn) 1) ]
           else []
      else [o]
  | _ => [o]
  end.

(** The operands of a two-qubit instruction are qubits of the circuit,
    different from each other and from the two ancillas. *)
Definition substitutable (c : QuantumCircuit) (qn : string) (o : op) : bool :=
  match op1 o with
  | [a; b] =>
      is_qubit_of c a && is_qubit_of c b
      && bits_nodup [a; b; mkBit (QuantumRegister 2 qn) 0; mkBit (QuantumRegister 2 qn) 1]
  | _ => true
  end.

(** What stands for one instruction after [autosubstitute] followed by
    [decompose]: the pair preparation and the remote CX protocol for a
    substituted CNOT. *)
Definition substituted_expanded (reglist : list Bit * list Bit) (gates : list string)
    (qn cn : string) (o : op) : list op :=
  match op1 o with
  | [a; b] =>
      if kind_in gates o && straddles reglist a b
      then if String.eqb (name (op0 o)) "cx"
           then let e0 := mkBit (QuantumRegister 2 qn) 0 in
                let e1 := mkBit (QuantumRegister 2 qn) 1 in
                let c0 := mkBit (ClassicalRegister 2 cn) 0 in
                let c1 := mkBit (ClassicalRegister 2 cn) 1 in
                [ HADAMARD e0; CNOT e0 e1;
                  CNOT a e0; CNOT e1 b; MEASURE e0 c0; X_IF c0 e1; X_IF c0 b;
                  HADAMARD e1; MEASURE e1 c1; Z_IF c1 a; X_IF c0 e0; X_IF c1 e1 ]
           else []
      else [o]
  | _ => [o]
  end.

(** ** The kinds a builder emits *)

(** The kinds of a sequence of instructions, in order. *)
Definition kinds_of (d : list op) : list string := map (fun o => name (op0 o)) d.

(** The kinds of the instructions that the builder of a macro kind appends
    when it runs through, one for each of its gate-method calls and in
    their order; nothing is built for a kind that is no macro kind. *)
Definition emitted_kinds (nm : string) : list string :=
  if String.eqb nm "RemoteCX"
  then ["cx"; "cx"; "measure"; "x"; "x"; "h"; "measure"; "z"; "x"; "x"]
  else if String.eqb nm "RemoteRZZ"
  then ["cx"; "cx"; "measure"; "x"; "rz"; "h"; "measure"; "z"; "z"; "x"; "x"]
  else if String.eqb nm "RemoteCRZ"
  then ["rz"; "rz"; "cx"; "measure"; "x"; "cx"; "rz"; "h"; "measure"; "z"; "z"]
  else if String.eqb nm "Teleport"
  then ["cx"; "h"; "measure"; "measure"; "x"; "z"; "x"; "x"; "swap"]
  else if String.eqb nm "GenEPR"
  then ["h"; "cx"]
  else [].

(** The kinds that stand for one instruction in the output of [decompose]:
    what its builder emits when its kind is asked for, its own kind
    otherwise. *)
Definition output_kinds (gates : list string) (o : op) : list string :=
  if kind_in gates o then emitted_kinds (name (op0 o)) else [name (op0 o)].

(** An instruction whose kind is asked for and whose builder emits an
    instruction of a kind that is asked for as well. *)
Definition emits_asked_kind (gates : list string) (o : op) : bool :=
  kind_in gates o && existsb (fun k => str_in k gates) (emitted_kinds (name (op0 o))).

(** A computation that, whenever it returns, has appended instructions of
    the kinds [ks], in this order, and has kept the kinds of the
    instructions that were there. *)
Definition emits {A} (ks : list string) (m : M A) : Prop :=
  forall c a c', m c = (Ok a, c') -> kinds_of (data c') = kinds_of (data c) ++ ks.

(** ** Operands given by a caller *)

(** An operand that is one value: a bit handle, [None] or a float.  A
    register, a list of bits or a string given as one operand is a sequence,
    which the host library expands into its elements. *)
Definition single_value (v : pyval) : bool :=
  match v with
  | PyNone | PyNum _ | PyBit _ => true
  | PyStr _ | PyReg _ | PyBits _ => false
  end.

(** An operand that is one value and no bit: [None], the default of the two
    primary qubits of [addInstr], or a float. *)
Definition not_a_bit (v : pyval) : bool :=
  match v with
  | PyNone | PyNum _ => true
  | _ => false
  end.

(** A register argument as the docstring of [addInstr] asks for it: when it
    is a register handle, the register has two units. *)
Definition two_units (v : pyval) : bool :=
  match v with
  | PyReg r => Nat.eqb (rsize r) 2
  | _ => true
  end.
(** ** Lists and slices *)

Section Slices.

Lemma slice_empty (l : list op) (a : nat) : slice l a a = [].
Proof. unfold slice. now rewrite Nat.sub_diag. Qed.

Lemma slice_to_end (l : list op) (a : nat) : slice l a (List.length l) = slice_from l a.
Proof.
  unfold slice, slice_from.
  rewrite <- (length_skipn a l). apply firstn_all.
Qed.

Lemma slice_snoc (pre t : list op) (o : op) (a : nat) :
  a <= List.length pre ->
  slice (pre ++ o :: t) a (S (List.length pre)) = slice (pre ++ o :: t) a (List.length pre) ++ [o].
Proof.
  intros Ha. unfold slice.
  rewrite skipn_app.
  replace (a - List.length pre) with 0 by lia. simpl skipn.
  rewrite !firstn_app, length_skipn.
  replace (S (List.length pre) - a - (List.length pre - a)) with 1 by lia.
  replace (List.length pre - a - (List.length pre - a)) with 0 by lia.
  rewrite !firstn_all2 by (rewrite length_skipn; lia).
  simpl. rewrite app_nil_r.
  now rewrite firstn_all2 by (rewrite length_skipn; lia).
Qed.

End Slices.

(** ** The splicing loop *)

Section SpliceLoop.

Variable d : list op.
Variable ec : QuantumCircuit.
Variable body : loop_state -> nat -> op -> result loop_state.
Variable chunk : op -> result (list op).
Variable selected : op -> bool.

(** The two loops of the source have this shape: an instruction that is not
    selected leaves the locals alone; a selected one flushes the pending
    slice, appends its chunk and moves the splice point past itself. *)
Hypothesis body_skip : forall st idx o,
  selected o = false -> body st idx o = Ok st /\ chunk o = Ok [o].
Hypothesis body_splice : forall st idx o,
  selected o = true -> tempCirc st = ec ->
  body st idx o =
    match chunk o with
    | Raise e => Raise e
    | Ok ch => Ok (mkLoop ((circuitChunks st ++ slice d (idxStart st) idx) ++ ch) (idx + 1) ec)
    end.

Lemma for_enumerate_splice : forall rest pre st,
  d = pre ++ rest ->
  idxStart st <= List.length pre ->
  tempCirc st = ec ->
  flushed d (for_enumerate body (List.length pre) rest st)
  = after (circuitChunks st ++ slice d (idxStart st) (List.length pre))
          (splice_all chunk rest).
Proof.
  induction rest as [|o t IH]; intros pre st Hd Hle Htmp.
  - simpl. rewrite app_nil_r in Hd. subst pre.
    now rewrite slice_to_end, app_nil_r.
  - simpl for_enumerate. simpl splice_all.
    assert (Hd' : d = (pre ++ [o]) ++ t) by (now rewrite <- app_assoc).
    assert (Hlen : List.length (pre ++ [o]) = S (List.length pre))
      by (rewrite length_app; simpl; lia).
    destruct (selected o) eqn:Hsel.
    + rewrite (body_splice st (List.length pre) o Hsel Htmp).
      destruct (chunk o) as [ch|e]; [|reflexivity].
      rewrite <- Hlen.
      rewrite (IH (pre ++ [o]) _ Hd') by (simpl; lia || reflexivity).
      simpl circuitChunks. simpl idxStart.
      rewrite Hlen. replace (List.length pre + 1) with (S (List.length pre)) by lia.
      rewrite slice_empty, app_nil_r.
      destruct (splice_all chunk t); simpl; [|reflexivity].
      now rewrite <- !app_assoc.
    + destruct (body_skip st (List.length pre) o Hsel) as [-> ->].
      rewrite <- Hlen.
      rewrite (IH (pre ++ [o]) st Hd') by (try lia; assumption).
      rewrite Hlen.
      assert (Hs : slice d (idxStart st) (S (List.length pre))
                   = slice d (idxStart st) (List.length pre) ++ [o])
        by (rewrite Hd; now apply slice_snoc).
      rewrite Hs.
      destruct (splice_all chunk t); simpl; [|reflexivity].
      now rewrite <- !app_assoc.
Qed.

Lemma for_enumerate_whole :
  flushed d (for_enumerate body 0 d (mkLoop [] 0 ec)) = splice_all chunk d.
Proof.
  pose proof (for_enumerate_splice d [] (mkLoop [] 0 ec) eq_refl) as H.
  simpl in H. rewrite H by auto.
  rewrite slice_empty. now destruct (splice_all chunk d).
Qed.

End SpliceLoop.

(** [decompose] is the splicing of the expansions. *)
Lemma decompose_output (gates : list string) (circ : QuantumCircuit) :
  decompose gates circ =
    match splice_all (expansion circ gates) (data circ) with
    | Ok r => (Ok tt, set_data circ r)
    | Raise e => (Raise e, circ)
    end.
Proof.
  unfold decompose.
  pose proof (for_enumerate_whole (data circ) (emptied circ)
                (decompose_body circ (emptied circ) gates)
                (expansion circ gates)
                (fun o => str_in (name (op0 o)) gates)) as H.
  unfold flushed in H.
  rewrite <- H.
  - now destruct (for_enumerate _ _ _ _).
  - intros st idx o Hsel. unfold decompose_body, expansion. now rewrite Hsel.
  - intros st idx o Hsel Htmp. unfold decompose_body, expansion, run_on.
    rewrite Hsel, Htmp.
    destruct (dispatch _ _ _) as [[[]|e] tmp]; reflexivity.
Qed.

(** [autosubstitute] resolves the registers, then splices the
    substitutions. *)
Lemma autosubstitute_loop (reglist : list Bit * list Bit) (gates : list string)
    (creg qreg : pyval) (circ : QuantumCircuit) :
  match for_enumerate (autosubstitute_body circ (emptied circ) reglist gates creg qreg)
          0 (data circ) (mkLoop [] 0 (emptied circ)) with
  | Raise e => (Raise e, circ)
  | Ok st => (Ok tt, set_data circ (circuitChunks st ++ slice_from (data circ) (idxStart st)))
  end =
  match splice_all (substitution circ reglist gates creg qreg) (data circ) with
  | Ok r => (Ok tt, set_data circ r)
  | Raise e => (Raise e, circ)
  end.
Proof.
  pose proof (for_enumerate_whole (data circ) (emptied circ)
                (autosubstitute_body circ (emptied circ) reglist gates creg qreg)
                (substitution circ reglist gates creg qreg)
                (targeted reglist gates)) as H.
  unfold flushed in H.
  rewrite <- H.
  - now destruct (for_enumerate _ _ _ _).
  - intros st idx o Hsel. unfold targeted in Hsel.
    unfold autosubstitute_body, substitution.
    destruct (op1 o) as [|a [|b [|]]]; auto.
    now rewrite Hsel.
  - intros st idx o Hsel Htmp. unfold targeted in Hsel.
    unfold autosubstitute_body, substitution, run_on.
    destruct (op1 o) as [|a [|b [|]]]; try discriminate.
    rewrite Hsel, Htmp.
    destruct (String.eqb (name (op0 o)) "cx").
    + destruct (addInstr _ _ _ _ _ _ _) as [[[]|e] tmp]; reflexivity.
    + reflexivity.
Qed.

(** ** Evaluating the gate methods *)

Lemma is_qubit_of_set_data (c : QuantumCircuit) (d : list op) (b : Bit) :
  is_qubit_of (set_data c d) b = is_qubit_of c b.
Proof. reflexivity. Qed.

Lemma is_clbit_of_set_data (c : QuantumCircuit) (d : list op) (b : Bit) :
  is_clbit_of (set_data c d) b = is_clbit_of c b.
Proof. reflexivity. Qed.

(** ** Boolean equalities decide equality *)

Lemma regkind_eqb_eq (a b : regkind) : regkind_eqb a b = true <-> a = b.
Proof. destruct a, b; simpl; split; congruence. Qed.

Lemma Register_eqb_eq (a b : Register) : Register_eqb a b = true <-> a = b.
Proof.
  destruct a as [k1 n1 s1], b as [k2 n2 s2]. unfold Register_eqb. simpl.
  rewrite !andb_true_iff, regkind_eqb_eq, Nat.eqb_eq, String.eqb_eq.
  split; [intros [[-> ->] ->]; reflexivity | intros H; inversion H; auto].
Qed.

Lemma Bit_eqb_eq (a b : Bit) : Bit_eqb a b = true <-> a = b.
Proof.
  destruct a as [r1 i1], b as [r2 i2]. unfold Bit_eqb. simpl.
  rewrite andb_true_iff, Register_eqb_eq, Nat.eqb_eq.
  split; [intros [-> ->]; reflexivity | intros H; inversion H; auto].
Qed.

Lemma str_in_In (s : string) (l : list string) : str_in s l = true <-> In s l.
Proof.
  unfold str_in. rewrite existsb_exists. split.
  - intros [y [Hy He]]. apply String.eqb_eq in He. now subst.
  - intros H. exists s. split; [assumption | apply String.eqb_refl].
Qed.

Lemma bit_in_In (b : Bit) (l : list Bit) : bit_in b l = true <-> In b l.
Proof.
  unfold bit_in. rewrite existsb_exists. split.
  - intros [y [Hy He]]. apply Bit_eqb_eq in He. now subst.
  - intros H. exists b. split; [assumption | now apply Bit_eqb_eq].
Qed.

(** ** The monad, case by case *)

Lemma bind_cases {A B} (m : M A) (f : A -> M B) (c c' : QuantumCircuit) (r : result B) :
  bind m f c = (r, c') ->
  (exists e, m c = (Raise e, c') /\ r = Raise e)
  \/ (exists a c1, m c = (Ok a, c1) /\ f a c1 = (r, c')).
Proof.
  unfold bind. destruct (m c) as [[a|e] c1]; intros H.
  - right. now exists a, c1.
  - left. exists e. now inversion H.
Qed.

Lemma bind_ok {A B} (m : M A) (f : A -> M B) (c c1 : QuantumCircuit) (a : A) :
  m c = (Ok a, c1) -> bind m f c = f a c1.
Proof. unfold bind. now intros ->. Qed.

Lemma bind_raise {A B} (m : M A) (f : A -> M B) (c c1 : QuantumCircuit) (e : exn) :
  m c = (Raise e, c1) -> bind m f c = (Raise e, c1).
Proof. unfold bind. now intros ->. Qed.

(** ** The register utilities *)

Lemma add_register_cases (r : Register) (c : QuantumCircuit) :
  add_register r c = (Raise CircuitError, c)
  \/ (exists c', add_register r c = (Ok tt, c') /\ data c' = data c).
Proof.
  unfold add_register. destruct (str_in _ _); [now left|].
  right. destruct (rkind r); eexists; split; reflexivity.
Qed.

Lemma get_cregs_cases (v : pyval) (c : QuantumCircuit) :
  get_cregs v c = (Raise CircuitError, c)
  \/ (exists w b c', get_cregs v c = (Ok (w, b), c') /\ data c' = data c).
Proof.
  unfold get_cregs. destruct (is_None v || negb _).
  - destruct (add_register_cases (ClassicalRegister 2 "c_epr") c) as [H|[c' [H Hd]]].
    + left. now rewrite (bind_raise _ _ _ _ _ H).
    + right. rewrite (bind_ok _ _ _ _ _ H). unfold ret. eauto.
  - right. unfold ret. eauto.
Qed.

Lemma get_qregs_cases (v : pyval) (c : QuantumCircuit) :
  get_qregs v c = (Raise CircuitError, c)
  \/ (exists w b c', get_qregs v c = (Ok (w, b), c') /\ data c' = data c).
Proof.
  unfold get_qregs. destruct (is_None v || negb _).
  - destruct (add_register_cases (QuantumRegister 2 "q_epr") c) as [H|[c' [H Hd]]].
    + left. now rewrite (bind_raise _ _ _ _ _ H).
    + right. rewrite (bind_ok _ _ _ _ _ H). unfold ret. eauto.
  - right. unfold ret. eauto.
Qed.

(** A register handle that is on the circuit is returned as it is, and
    nothing is added. *)
Lemma get_cregs_handle (r : Register) (c : QuantumCircuit) :
  has_register c (PyReg r) = true -> get_cregs (PyReg r) c = (Ok (PyReg r, false), c).
Proof. intros H. unfold get_cregs. now rewrite H. Qed.

Lemma get_qregs_handle (r : Register) (c : QuantumCircuit) :
  has_register c (PyReg r) = true -> get_qregs (PyReg r) c = (Ok (PyReg r, false), c).
Proof. intros H. unfold get_qregs. now rewrite H. Qed.

(** Asking twice for a register handle that is on the circuit answers the
    same both times and adds nothing. *)
Lemma get_cregs_handle_twice (r : Register) (c : QuantumCircuit) :
  has_register c (PyReg r) = true ->
  (get_cregs (PyReg r) ;; get_cregs (PyReg r)) c = (Ok (PyReg r, false), c).
Proof.
  intros H. rewrite (bind_ok _ _ _ _ _ (get_cregs_handle r c H)).
  now apply get_cregs_handle.
Qed.

Lemma get_qregs_handle_twice (r : Register) (c : QuantumCircuit) :
  has_register c (PyReg r) = true ->
  (get_qregs (PyReg r) ;; get_qregs (PyReg r)) c = (Ok (PyReg r, false), c).
Proof.
  intros H. rewrite (bind_ok _ _ _ _ _ (get_qregs_handle r c H)).
  now apply get_qregs_handle.
Qed.

(** The name of a 2-unit register that is on the circuit is returned as it
    is: the string, not the register. *)
Lemma get_cregs_name (s : string) (c : QuantumCircuit) :
  has_register c (PyReg (ClassicalRegister 2 s)) = true ->
  get_cregs (PyStr s) c = (Ok (PyStr s, false), c).
Proof. intros H. unfold get_cregs. now rewrite H. Qed.

Lemma get_qregs_name (s : string) (c : QuantumCircuit) :
  has_register c (PyReg (QuantumRegister 2 s)) = true ->
  get_qregs (PyStr s) c = (Ok (PyStr s, false), c).
Proof. intros H. unfold get_qregs. now rewrite H. Qed.

(** ** Appending *)

Lemma append_bits_cases (i : Instruction) (qs cs : list Bit) (c : QuantumCircuit) :
  append_bits i qs cs c = (Raise CircuitError, c)
  \/ (append_bits i qs cs c = (Ok tt, set_data c (data c ++ [(i, qs, cs)]))
      /\ append_ok c i qs cs = true).
Proof. unfold append_bits. destruct (append_ok c i qs cs); auto. Qed.

Lemma append_cases (i : Instruction) (qargs cargs : list pyval) (c : QuantumCircuit) :
  append i qargs cargs c = (Raise CircuitError, c)
  \/ (exists qs cs,
        as_bits qargs = Ok qs /\ as_bits cargs = Ok cs /\ append_ok c i qs cs = true
        /\ append i qargs cargs c = (Ok tt, set_data c (data c ++ [(i, qs, cs)]))).
Proof.
  unfold append, bind, lift.
  assert (Hb : forall l, (exists bs, as_bits l = Ok bs) \/ as_bits l = Raise CircuitError).
  { induction l as [|v l IH]; simpl; [eauto|].
    destruct v; simpl; auto.
    destruct IH as [[bs ->]| ->]; eauto. }
  destruct (Hb qargs) as [[qs ->]| ->]; [|now left].
  destruct (Hb cargs) as [[cs ->]| ->]; [|now left].
  destruct (append_bits_cases i qs cs c) as [H|[H Hok]]; rewrite H; [now left|].
  right. exists qs, cs. auto.
Qed.

Lemma c_if_cases (cb : result pyval) (v : nat) (c : QuantumCircuit) :
  (exists e, c_if cb v c = (Raise e, c))
  \/ (exists b, cb = Ok (PyBit b) /\ is_clbit_of c b = true
         /\ c_if cb v c = (Ok tt, set_data c (set_last_condition (b, v) (data c)))).
Proof.
  unfold c_if, bind, lift.
  destruct cb as [cv|e]; [|eauto].
  destruct cv; eauto.
  destruct (is_clbit_of c b) eqn:Hb; eauto.
Qed.

Lemma dict_get_unknown (params : list param) (nm : string) :
  str_in nm default_gates = false -> dict_get (instrSet params) nm = Raise KeyError.
Proof.
  intros H. unfold str_in, default_gates in H. cbn [existsb] in H.
  rewrite !orb_false_iff in H. destruct H as (H1 & H2 & H3 & H4 & H5 & _).
  unfold instrSet. cbn [dict_get].
  rewrite (String.eqb_sym "RemoteCX"), H1, (String.eqb_sym "RemoteRZZ"), H2,
          (String.eqb_sym "RemoteCRZ"), H3, (String.eqb_sym "Teleport"), H4,
          (String.eqb_sym "GenEPR"), H5.
  reflexivity.
Qed.

(** ** addInstr, stage by stage *)

Lemma subscript_cases (v : pyval) (i : nat) :
  (exists w, subscript v i = Ok w)
  \/ subscript v i = Raise IndexError \/ subscript v i = Raise TypeError.
Proof.
  destruct v; simpl; auto.
  - destruct (String.get i s); eauto.
  - destruct (Nat.ltb i (rsize r)); eauto.
  - destruct (nth_error l i); eauto.
Qed.

Lemma py_iter_cases (v : pyval) :
  (exists l, py_iter v = Ok l) \/ py_iter v = Raise TypeError.
Proof. destruct v; simpl; eauto. Qed.

Lemma append_ok_two (c : QuantumCircuit) (i : Instruction) (qs cs : list Bit) :
  num_qubits i = 2 -> append_ok c i qs cs = true -> exists e0 e1, qs = [e0; e1].
Proof.
  intros Hn. unfold append_ok. rewrite !andb_true_iff, Hn, Nat.eqb_eq.
  intros [[[[Hl _] _] _] _].
  destruct qs as [|e0 [|e1 [|]]]; try discriminate. eauto.
Qed.

Lemma early_failure_not_undefined (e : exn) :
  early_failure e -> e <> undefined_instruction.
Proof. intros [->|[->| ->]]; discriminate. Qed.

Lemma addInstr_stages (nm : string) (qb1 qb2 : pyval) (params : list param)
    (epr_creg epr_qreg : pyval) (c : QuantumCircuit) :
  (exists e c1, early_failure e
     /\ addInstr nm qb1 qb2 params epr_creg epr_qreg c = (Raise e, c1)
     /\ data c1 = data c)
  \/ (exists creg qreg q0 q1 e0 e1 c1,
        data c1 = data c
        /\ subscript qreg 0 = Ok q0 /\ subscript qreg 1 = Ok q1
        /\ py_iter qreg = Ok [PyBit e0; PyBit e1]
        /\ addInstr nm qb1 qb2 params epr_creg epr_qreg c
           = addInstr_tail nm params creg [qb1; qb2; q0; q1]
               (set_data c1 (data c1 ++ [GenEPR_op params e0 e1]))).
Proof.
  unfold addInstr.
  destruct (get_cregs_cases epr_creg c) as [H|[creg [b1 [c1 [H Hd1]]]]].
  { left. exists CircuitError, c. rewrite (bind_raise _ _ _ _ _ H).
    unfold early_failure. auto. }
  rewrite (bind_ok _ _ _ _ _ H). clear H.
  destruct (get_qregs_cases epr_qreg c1) as [H|[qreg [b2 [c2 [H Hd2]]]]].
  { left. exists CircuitError, c1. rewrite (bind_raise _ _ _ _ _ H).
    unfold early_failure. auto. }
  rewrite (bind_ok _ _ _ _ _ H). clear H. cbn [fst].
  assert (Hd : data c2 = data c) by congruence.
  destruct (subscript_cases qreg 0) as [[q0 H0]|H0].
  2:{ left. destruct H0 as [H0|H0]; rewrite H0; eexists _, c2;
      (split; [|split; [reflexivity|assumption]]); unfold early_failure; auto. }
  rewrite H0. unfold lift at 1. unfold bind at 1.
  destruct (subscript_cases qreg 1) as [[q1 H1]|H1].
  2:{ left. destruct H1 as [H1|H1]; rewrite H1; eexists _, c2;
      (split; [|split; [reflexivity|assumption]]); unfold early_failure; auto. }
  rewrite H1. unfold lift at 1. unfold bind at 1.
  change (dict_get (instrSet params) "GenEPR") with (Ok (mkInstr "GenEPR" 2 0 params None)).
  destruct (py_iter_cases qreg) as [[l Hl]|Hl].
  2:{ left. rewrite Hl. eexists _, c2.
      (split; [|split; [reflexivity|assumption]]); unfold early_failure; auto. }
  rewrite Hl. unfold lift at 1 2. unfold bind at 1 2 3.
  destruct (append_cases (mkInstr "GenEPR" 2 0 params None) l [] c2)
    as [Ha|[qs [cs [Hqs [Hcs [Hok Ha]]]]]]; rewrite Ha.
  { left. eexists _, c2.
    (split; [|split; [reflexivity|assumption]]); unfold early_failure; auto. }
  right.
  destruct (append_ok_two c2 (mkInstr "GenEPR" 2 0 params None) qs cs eq_refl Hok) as [e0 [e1 ->]].
  simpl in Hcs. injection Hcs as <-.
  assert (Hl' : l = [PyBit e0; PyBit e1]).
  { destruct l as [|v0 [|v1 [|v2 l]]]; simpl in Hqs; try discriminate.
    - destruct v0; discriminate.
    - destruct v0, v1; try discriminate. simpl in Hqs. now inversion Hqs.
    - destruct v0, v1, v2; try discriminate. simpl in Hqs.
      destruct (as_bits l); discriminate. }
  subst l.
  exists creg, qreg, q0, q1, e0, e1, c2.
  repeat split; auto.
  unfold bind, lift. now rewrite Ha.
Qed.

(** ** What the builders append *)

Section Keeps.

Variable I : list op -> Prop.

Lemma keeps_bind {A B} (m : M A) (f : A -> M B) :
  keeps I m -> (forall a, keeps I (f a)) -> keeps I (bind m f).
Proof.
  intros Hm Hf c r c' Hrun Hc.
  destruct (bind_cases m f c c' r Hrun) as [[e [H _]]|[a [c1 [H1 H2]]]].
  - exact (Hm _ _ _ H Hc).
  - exact (Hf a _ _ _ H2 (Hm _ _ _ H1 Hc)).
Qed.

Lemma keeps_lift {A} (r : result A) : keeps I (lift r).
Proof. intros c r' c' H Hc. unfold lift in H. now inversion H; subst. Qed.

Lemma keeps_ret {A} (a : A) : keeps I (ret a).
Proof. intros c r' c' H Hc. unfold ret in H. now inversion H; subst. Qed.

Lemma keeps_raise {A} (e : exn) : keeps I (@raise A e).
Proof. intros c r' c' H Hc. unfold raise in H. now inversion H; subst. Qed.

Lemma keeps_append (i : Instruction) (qargs cargs : list pyval) :
  (forall d qs cs, I d -> I (d ++ [(i, qs, cs)])) ->
  keeps I (append i qargs cargs).
Proof.
  intros Hsnoc c r c' Hrun Hc.
  destruct (append_cases i qargs cargs c) as [H|(qs & cs & _ & _ & _ & H)];
    rewrite H in Hrun; inversion Hrun; subst; simpl; auto.
Qed.

Lemma keeps_c_if (cb : result pyval) (v : nat) :
  (forall d cnd, I d -> I (set_last_condition cnd d)) ->
  keeps I (c_if cb v).
Proof.
  intros Hset c r c' Hrun Hc.
  destruct (c_if_cases cb v c) as [[e H]|(b & _ & _ & H)];
    rewrite H in Hrun; inversion Hrun; subst; simpl; auto.
Qed.

End Keeps.

Lemma all_primitive_snoc (i : Instruction) (d : list op) (qs cs : list Bit) :
  In (name i) primitive_kinds -> all_primitive d -> all_primitive (d ++ [(i, qs, cs)]).
Proof.
  intros Hi Hd. unfold all_primitive. apply Forall_app. split; [assumption|].
  constructor; [exact Hi | constructor].
Qed.

Lemma all_primitive_set_last_condition (cnd : Bit * nat) (d : list op) :
  all_primitive d -> all_primitive (set_last_condition cnd d).
Proof.
  unfold all_primitive, set_last_condition. intros Hd.
  destruct (rev d) as [|o r] eqn:Hr; [constructor|].
  assert (Hd' : Forall (fun o => In (name (op0 o)) primitive_kinds) (rev d))
    by (now apply Forall_rev).
  rewrite Hr in Hd'. inversion Hd' as [|? ? Ho Hrest]; subst.
  apply Forall_app. split; [now apply Forall_rev|].
  constructor; [exact Ho | constructor].
Qed.

Ltac keeps_primitive :=
  repeat first
    [ apply keeps_c_if; intros; now apply all_primitive_set_last_condition
    | apply keeps_append; intros; apply all_primitive_snoc;
      [simpl; repeat ((left; reflexivity) || right) | assumption]
    | apply keeps_lift
    | apply keeps_ret
    | apply keeps_raise
    | apply keeps_bind; [|intro] ].

Lemma keeps_setAncilla (a b : pyval) : keeps all_primitive (setAncilla a b).
Proof. unfold setAncilla, h, cnot, gate. keeps_primitive. Qed.

Lemma keeps_buildRemoteCX (a b c d e : pyval) :
  keeps all_primitive (buildRemoteCX a b c d e).
Proof. unfold buildRemoteCX, h, x, z, cnot, measure, gate. keeps_primitive. Qed.

Lemma keeps_buildRemoteZZ (p a b c d e : pyval) :
  keeps all_primitive (buildRemoteZZ p a b c d e).
Proof. unfold buildRemoteZZ, h, x, z, rz, cnot, measure, gate. keeps_primitive. Qed.

Lemma keeps_buildRemoteCRZ (p a b c d e : pyval) :
  keeps all_primitive (buildRemoteCRZ p a b c d e).
Proof. unfold buildRemoteCRZ, h, x, z, rz, cnot, measure, gate. keeps_primitive. Qed.

Lemma keeps_buildTeleportation (a b c d e : pyval) :
  keeps all_primitive (buildTeleportation a b c d e).
Proof.
  unfold buildTeleportation, h, x, z, cnot, swap, measure, gate. keeps_primitive.
Qed.

Lemma keeps_dispatch (nm : string) (args : list pyval) :
  keeps all_primitive (dispatch nm args).
Proof.
  unfold dispatch.
  destruct (String.eqb nm "RemoteCX").
  { unfold call_buildRemoteCX.
    destruct args as [|a [|b [|c [|d [|e [|f l]]]]]];
      try apply keeps_raise. apply keeps_buildRemoteCX. }
  destruct (String.eqb nm "RemoteRZZ").
  { unfold call_buildRemoteZZ.
    destruct args as [|p [|a [|b [|c [|d [|e [|f l]]]]]]];
      try apply keeps_raise. apply keeps_buildRemoteZZ. }
  destruct (String.eqb nm "RemoteCRZ").
  { unfold call_buildRemoteCRZ.
    destruct args as [|p [|a [|b [|c [|d [|e [|f l]]]]]]];
      try apply keeps_raise. apply keeps_buildRemoteCRZ. }
  destruct (String.eqb nm "Teleport").
  { unfold call_buildTeleportation.
    destruct args as [|a [|b [|c [|d [|e [|f l]]]]]];
      try apply keeps_raise. apply keeps_buildTeleportation. }
  destruct (String.eqb nm "GenEPR").
  { unfold call_setAncilla.
    destruct args as [|a [|b [|c [|d l]]]];
      try apply keeps_raise; apply keeps_setAncilla. }
  apply keeps_ret.
Qed.

(** A chunk of [decompose] is the instruction itself when its kind is not
    asked for, and otherwise what a builder appended. *)
Lemma expansion_cases (circ : QuantumCircuit) (gates : list string) (o : op) (ch : list op) :
  expansion circ gates o = Ok ch ->
  (kind_in gates o = false /\ ch = [o]) \/ (kind_in gates o = true /\ all_primitive ch).
Proof.
  unfold expansion, kind_in. destruct (str_in _ gates).
  - intros H. right. split; [reflexivity|].
    unfold run_on in H.
    destruct (dispatch _ _ _) as [[[]|e] tmp] eqn:Hrun; inversion H; subst.
    apply (keeps_dispatch _ _ _ _ _ Hrun). constructor.
  - intros H. left. now inversion H.
Qed.

Lemma splice_all_In (f : op -> result (list op)) (l r : list op) (o' : op) :
  splice_all f l = Ok r -> In o' r ->
  exists o ch, In o l /\ f o = Ok ch /\ In o' ch.
Proof.
  revert r. induction l as [|o t IH]; simpl; intros r H Hin.
  - inversion H; subst. contradiction.
  - destruct (f o) as [ch|e] eqn:Hf; [|discriminate].
    destruct (splice_all f t) as [rt|e]; [|discriminate].
    inversion H; subst. apply in_app_or in Hin. destruct Hin as [Hin|Hin].
    + exists o, ch. auto.
    + destruct (IH rt eq_refl Hin) as (o1 & ch1 & H1 & H2 & H3).
      exists o1, ch1. auto.
Qed.

(** ** Splicing, compositionally *)

Lemma splice_all_app (f : op -> result (list op)) (l1 l2 : list op) :
  splice_all f (l1 ++ l2) =
    match splice_all f l1 with
    | Raise e => Raise e
    | Ok r1 => match splice_all f l2 with
               | Raise e => Raise e
               | Ok r2 => Ok (r1 ++ r2)
               end
    end.
Proof.
  induction l1 as [|o t IH]; simpl.
  - now destruct (splice_all f l2).
  - destruct (f o) as [ch|e]; [|reflexivity].
    rewrite IH. destruct (splice_all f t) as [r1|e]; [|reflexivity].
    destruct (splice_all f l2) as [r2|e]; [|reflexivity].
    now rewrite app_assoc.
Qed.

Lemma splice_all_ext (f g : op -> result (list op)) (l : list op) :
  (forall o, f o = g o) -> splice_all f l = splice_all g l.
Proof.
  intros H. induction l as [|o t IH]; simpl; [reflexivity|].
  now rewrite H, IH.
Qed.


Lemma expansion_set_data (circ : QuantumCircuit) (d : list op) (gates : list string) (o : op) :
  expansion (set_data circ d) gates o = expansion circ gates o.
Proof. reflexivity. Qed.

Lemma decompose_on (gates : list string) (circ : QuantumCircuit) (d r : list op) :
  splice_all (expansion circ gates) d = Ok r ->
  decompose gates (set_data circ d) = (Ok tt, set_data circ r).
Proof.
  intros H. rewrite decompose_output. simpl data.
  rewrite (splice_all_ext _ (expansion circ gates) d (expansion_set_data circ d gates)).
  now rewrite H.
Qed.

Lemma kind_in_default_false (o : op) :
  kind_in default_gates o = false ->
  dispatch (name (op0 o)) (star_args o) = ret tt.
Proof.
  unfold kind_in, str_in, default_gates. cbn [existsb].
  rewrite !orb_false_iff. intros (H1 & H2 & H3 & H4 & H5 & _).
  unfold dispatch. now rewrite H1, H2, H3, H4, H5.
Qed.

Lemma expansion_other_kind (circ : QuantumCircuit) (gates : list string) (o : op) :
  other_kind gates o = true -> expansion circ gates o = Ok [].
Proof.
  unfold other_kind. rewrite andb_true_iff, negb_true_iff. intros [Hg Hd].
  unfold expansion. unfold kind_in in Hg. rewrite Hg.
  now rewrite (kind_in_default_false o Hd).
Qed.

Lemma splice_all_without_other_kinds (circ : QuantumCircuit) (gates : list string) (l : list op) :
  splice_all (expansion circ gates) l
  = splice_all (expansion circ gates) (filter (fun o => negb (other_kind gates o)) l).
Proof.
  induction l as [|o t IH]; simpl; [reflexivity|].
  destruct (other_kind gates o) eqn:Ho; simpl.
  - rewrite (expansion_other_kind circ gates o Ho), IH.
    destruct (splice_all (expansion circ gates) (filter _ t)); reflexivity.
  - now rewrite IH.
Qed.

Lemma splice_all_only_other_kinds (circ : QuantumCircuit) (gates : list string) (l : list op) :
  (forall o, In o l -> kind_in gates o = true -> kind_in default_gates o = false) ->
  splice_all (expansion circ gates) l = Ok (filter (fun o => negb (kind_in gates o)) l).
Proof.
  induction l as [|o t IH]; intros H; [reflexivity|].
  cbn [splice_all filter].
  rewrite IH by (intros; apply H; [now right | assumption]).
  destruct (kind_in gates o) eqn:Hk; cbn [negb].
  - rewrite expansion_other_kind; [reflexivity|].
    unfold other_kind. rewrite Hk, (H o (or_introl eq_refl) Hk). reflexivity.
  - unfold expansion. unfold kind_in in Hk. now rewrite Hk.
Qed.

(** ** autosubstitute is the splicing of the substitutions *)

Lemma autosubstitute_output (reglist : list Bit * list Bit) (gates : list string)
    (epr_qreg epr_creg : pyval) (circ : QuantumCircuit) :
  autosubstitute reglist gates epr_qreg epr_creg circ =
    (cr <- get_cregs epr_creg ;;
     qr <- get_qregs epr_qreg ;;
     autosubstitute_splice reglist gates (fst cr) (fst qr)) circ.
Proof.
  unfold autosubstitute, bind.
  destruct (get_cregs epr_creg circ) as [[cr|e] c1]; [|reflexivity].
  destruct (get_qregs epr_qreg c1) as [[qr|e] c2]; [|reflexivity].
  apply autosubstitute_loop.
Qed.

(** ** Membership only depends on the elements *)

Lemma str_in_same (g1 g2 : list string) (s : string) :
  same_elements g1 g2 -> str_in s g1 = str_in s g2.
Proof.
  intros H. apply eq_true_iff_eq. rewrite !str_in_In. apply H.
Qed.

Lemma bit_in_same (l1 l2 : list Bit) (b : Bit) :
  same_elements l1 l2 -> bit_in b l1 = bit_in b l2.
Proof.
  intros H. apply eq_true_iff_eq. rewrite !bit_in_In. apply H.
Qed.

Lemma straddles_same (r1 r2 : list Bit * list Bit) (a b : Bit) :
  same_elements (fst r1) (fst r2) -> same_elements (snd r1) (snd r2) ->
  straddles r1 a b = straddles r2 a b.
Proof.
  intros H1 H2. unfold straddles.
  now rewrite !(bit_in_same _ _ _ H1), !(bit_in_same _ _ _ H2).
Qed.


Lemma expansion_same (circ : QuantumCircuit) (g1 g2 : list string) (o : op) :
  same_elements g1 g2 -> expansion circ g1 o = expansion circ g2 o.
Proof. intros H. unfold expansion. now rewrite (str_in_same _ _ _ H). Qed.

Lemma substitution_same (circ : QuantumCircuit) (r1 r2 : list Bit * list Bit)
    (g1 g2 : list string) (creg qreg : pyval) (o : op) :
  same_elements g1 g2 ->
  same_elements (fst r1) (fst r2) -> same_elements (snd r1) (snd r2) ->
  substitution circ r1 g1 creg qreg o = substitution circ r2 g2 creg qreg o.
Proof.
  intros Hg H1 H2. unfold substitution.
  destruct (op1 o) as [|a [|b [|]]]; try reflexivity.
  now rewrite (str_in_same _ _ _ Hg), (straddles_same _ _ _ _ H1 H2).
Qed.

(** ** What a substitution puts in place of a CNOT *)

Lemma subscript_of_pair (qreg q0 q1 : pyval) (e0 e1 : Bit) :
  py_iter qreg = Ok [PyBit e0; PyBit e1] ->
  subscript qreg 0 = Ok q0 -> subscript qreg 1 = Ok q1 ->
  q0 = PyBit e0 /\ q1 = PyBit e1.
Proof.
  destruct qreg as [| s | x | b | r | l]; simpl; try discriminate.
  - destruct s as [|a s]; simpl; discriminate.
  - unfold reg_bits. destruct (rsize r) as [|[|[|n]]]; simpl; try discriminate.
    intros H H0 H1. inversion H; subst. inversion H0; inversion H1. auto.
  - destruct l as [|b0 [|b1 [|b2 l]]]; simpl; try discriminate.
    intros H H0 H1. inversion H; subst. inversion H0; inversion H1. auto.
Qed.

Lemma append_ok_two_cargs (c : QuantumCircuit) (i : Instruction) (qs cs : list Bit) :
  num_clbits i = 2 -> append_ok c i qs cs = true -> exists k0 k1, cs = [k0; k1].
Proof.
  intros Hn. unfold append_ok. rewrite !andb_true_iff, Hn, Nat.eqb_eq.
  intros [[[[_ Hl] _] _] _].
  destruct cs as [|k0 [|k1 [|]]]; try discriminate. eauto.
Qed.





(** ** Well-formed macro instructions expand to their sequence *)

Lemma kind_in_default_cases (o : op) :
  kind_in default_gates o = true ->
  name (op0 o) = "RemoteCX" \/ name (op0 o) = "RemoteRZZ" \/ name (op0 o) = "RemoteCRZ"
  \/ name (op0 o) = "Teleport" \/ name (op0 o) = "GenEPR".
Proof.
  unfold kind_in. rewrite str_in_In. simpl. intuition.
Qed.

Ltac split_valid H :=
  unfold valid_operands in H;
  do 8 (apply andb_true_iff in H; let H' := fresh "Hv" in destruct H as [H H']);
  repeat match goal with
         | Hn : negb _ = true |- _ => apply negb_true_iff in Hn
         end.

Ltac run_gates_from_empty :=
  unfold cnot, measure, x, z, h, rz, swap, gate, half, neg_half, as_param;
  unfold bind, append, append_bits, lift, c_if, append_ok;
  repeat (cbn -[is_qubit_of is_clbit_of Bit_eqb];
          rewrite ?is_qubit_of_set_data, ?is_clbit_of_set_data;
          repeat match goal with
                 | H : _ = true |- _ => rewrite H
                 | H : _ = false |- _ => rewrite H
                 end).

Lemma expansion_well_formed (c : QuantumCircuit) (o : op) :
  kind_in default_gates o = true -> well_formed_macro c o = true ->
  expansion c default_gates o = Ok (macro_sequence o).
Proof.
  intros Hk Hwf. unfold expansion. unfold kind_in in Hk. rewrite Hk.
  destruct o as [[[nm nq nc ps cnd] qs] cs].
  unfold well_formed_macro, macro_sequence, star_args, op0, op1, op2 in *.
  cbn [fst snd name params] in *.
  destruct (kind_in_default_cases (mkInstr nm nq nc ps cnd, qs, cs) Hk)
    as [Hn|[Hn|[Hn|[Hn|Hn]]]]; cbn [op0 fst name] in Hn; subst nm;
    cbn [String.eqb Ascii.eqb Bool.eqb orb] in Hwf;
    unfold dispatch; cbn [String.eqb Ascii.eqb Bool.eqb];
    cbn [String.eqb Ascii.eqb Bool.eqb] in |- *.
  - destruct qs as [|a [|b [|e0 [|e1 [|]]]]]; try discriminate.
    destruct cs as [|c0 [|c1 cs]]; try discriminate.
    destruct ps; [|now rewrite andb_false_r in Hwf].
    rewrite andb_true_r in Hwf. split_valid Hwf.
    unfold run_on, call_buildRemoteCX, buildRemoteCX, emptied. cbn [map app].
    run_gates_from_empty. reflexivity.
  - destruct qs as [|a [|b [|e0 [|e1 [|]]]]]; try discriminate.
    destruct cs as [|c0 [|c1 cs]]; try discriminate.
    destruct ps as [|phi [|]]; try (now rewrite andb_false_r in Hwf).
    rewrite andb_true_r in Hwf. split_valid Hwf.
    unfold run_on, call_buildRemoteZZ, buildRemoteZZ, emptied. cbn [map app].
    run_gates_from_empty. reflexivity.
  - destruct qs as [|a [|b [|e0 [|e1 [|]]]]]; try discriminate.
    destruct cs as [|c0 [|c1 cs]]; try discriminate.
    destruct ps as [|phi [|]]; try (now rewrite andb_false_r in Hwf).
    rewrite andb_true_r in Hwf. split_valid Hwf.
    unfold run_on, call_buildRemoteCRZ, buildRemoteCRZ, emptied. cbn [map app].
    run_gates_from_empty. reflexivity.
  - destruct qs as [|a [|b [|e0 [|e1 [|]]]]]; try discriminate.
    destruct cs as [|c0 [|c1 cs]]; try discriminate.
    destruct ps; [|now rewrite andb_false_r in Hwf].
    rewrite andb_true_r in Hwf. split_valid Hwf.
    unfold run_on, call_buildTeleportation, buildTeleportation, emptied. cbn [map app].
    run_gates_from_empty. reflexivity.
  - destruct ps; try discriminate.
    destruct qs as [|e0 [|e1 [|]]]; try discriminate.
    do 2 (apply andb_true_iff in Hwf; let H' := fresh "Hv" in destruct Hwf as [Hwf H']).
    apply negb_true_iff in Hv.
    unfold run_on, call_setAncilla, setAncilla, emptied. cbn [map app].
    run_gates_from_empty. reflexivity.
Qed.

(** ** The start of addInstr on register handles *)

Lemma is_qubit_of_register (c : QuantumCircuit) (qn : string) (i : nat) :
  has_register c (PyReg (QuantumRegister 2 qn)) = true -> i < 2 ->
  is_qubit_of c (mkBit (QuantumRegister 2 qn) i) = true.
Proof.
  intros H Hi. unfold is_qubit_of. cbn in H.
  destruct i as [|[|i]]; [| |lia]; cbn; now rewrite H.
Qed.

Lemma is_clbit_of_register (c : QuantumCircuit) (cn : string) (i : nat) :
  has_register c (PyReg (ClassicalRegister 2 cn)) = true -> i < 2 ->
  is_clbit_of c (mkBit (ClassicalRegister 2 cn) i) = true.
Proof.
  intros H Hi. unfold is_clbit_of. cbn in H.
  destruct i as [|[|i]]; [| |lia]; cbn; now rewrite H.
Qed.

Lemma Bit_eqb_indices (r : Register) (i j : nat) :
  Nat.eqb i j = false -> Bit_eqb (mkBit r i) (mkBit r j) = false.
Proof. intros H. unfold Bit_eqb. simpl. rewrite H. apply andb_false_r. Qed.

Lemma genepr_append_handle (params : list param) (qn : string) (c : QuantumCircuit) :
  has_register c (PyReg (QuantumRegister 2 qn)) = true ->
  (gen <- lift (dict_get (instrSet params) "GenEPR") ;;
   qs <- lift (py_iter (PyReg (QuantumRegister 2 qn))) ;;
   append gen qs []) c
  = (Ok tt,
     set_data c (data c ++ [GenEPR_op params (mkBit (QuantumRegister 2 qn) 0)
                              (mkBit (QuantumRegister 2 qn) 1)])).
Proof.
  intros Hq.
  pose proof (is_qubit_of_register c qn 0 Hq ltac:(lia)) as H0.
  pose proof (is_qubit_of_register c qn 1 Hq ltac:(lia)) as H1.
  pose proof (Bit_eqb_indices (QuantumRegister 2 qn) 0 1 eq_refl) as Hne.
  unfold bind, lift, append, append_bits, append_ok.
  cbn -[is_qubit_of Bit_eqb]. now rewrite H0, H1, Hne.
Qed.

(** The start of [addInstr] when both registers are handles of 2-unit
    registers of the circuit: the [GenEPR] instruction is appended. *)
Lemma addInstr_with_handles (nm : string) (qb1 qb2 : pyval) (params : list param)
    (cn qn : string) (c : QuantumCircuit) :
  has_register c (PyReg (ClassicalRegister 2 cn)) = true ->
  has_register c (PyReg (QuantumRegister 2 qn)) = true ->
  addInstr nm qb1 qb2 params (PyReg (ClassicalRegister 2 cn)) (PyReg (QuantumRegister 2 qn)) c
  = addInstr_tail nm params (PyReg (ClassicalRegister 2 cn))
      [qb1; qb2; PyBit (mkBit (QuantumRegister 2 qn) 0); PyBit (mkBit (QuantumRegister 2 qn) 1)]
      (set_data c (data c ++ [GenEPR_op params (mkBit (QuantumRegister 2 qn) 0)
                                (mkBit (QuantumRegister 2 qn) 1)])).
Proof.
  intros Hc Hq. unfold addInstr.
  rewrite (bind_ok _ _ _ _ _ (get_cregs_handle _ c Hc)).
  rewrite (bind_ok _ _ _ _ _ (get_qregs_handle _ c Hq)).
  cbn [fst].
  change (subscript (PyReg (QuantumRegister 2 qn)) 0)
    with (Ok (PyBit (mkBit (QuantumRegister 2 qn) 0))).
  change (subscript (PyReg (QuantumRegister 2 qn)) 1)
    with (Ok (PyBit (mkBit (QuantumRegister 2 qn) 1))).
  unfold bind at 1. unfold lift at 1.
  unfold bind at 1. unfold lift at 1.
  now rewrite (bind_ok _ _ _ _ _ (genepr_append_handle params qn c Hq)).
Qed.

Lemma dict_get_macro (params : list param) (nm : string) :
  str_in nm two_qubit_macros = true ->
  dict_get (instrSet params) nm = Ok (mkInstr nm 4 2 params None)
  /\ String.eqb nm "GenEPR" = false.
Proof.
  rewrite str_in_In. simpl.
  intros [<-|[<-|[<-|[<-|[]]]]]; split; reflexivity.
Qed.

Lemma addInstr_macro_handles (nm : string) (a b : Bit) (params : list param)
    (cn qn : string) (c : QuantumCircuit) :
  str_in nm two_qubit_macros = true ->
  has_register c (PyReg (ClassicalRegister 2 cn)) = true ->
  has_register c (PyReg (QuantumRegister 2 qn)) = true ->
  is_qubit_of c a = true -> is_qubit_of c b = true ->
  bits_nodup [a; b; mkBit (QuantumRegister 2 qn) 0; mkBit (QuantumRegister 2 qn) 1] = true ->
  addInstr nm (PyBit a) (PyBit b) params
    (PyReg (ClassicalRegister 2 cn)) (PyReg (QuantumRegister 2 qn)) c
  = (Ok tt,
     set_data c
       (data c ++
        [ GenEPR_op params (mkBit (QuantumRegister 2 qn) 0) (mkBit (QuantumRegister 2 qn) 1);
          macro_op nm params a b
            (mkBit (QuantumRegister 2 qn) 0) (mkBit (QuantumRegister 2 qn) 1)
            (mkBit (ClassicalRegister 2 cn) 0) (mkBit (ClassicalRegister 2 cn) 1) ])).
Proof.
  intros Hnm Hc Hq Ha Hb Hdup.
  rewrite (addInstr_with_handles nm (PyBit a) (PyBit b) params cn qn c Hc Hq).
  destruct (dict_get_macro params nm Hnm) as [Hget Hgen].
  pose proof (is_qubit_of_register c qn 0 Hq ltac:(lia)) as H0.
  pose proof (is_qubit_of_register c qn 1 Hq ltac:(lia)) as H1.
  pose proof (is_clbit_of_register c cn 0 Hc ltac:(lia)) as Hc0.
  pose proof (is_clbit_of_register c cn 1 Hc ltac:(lia)) as Hc1.
  unfold addInstr_tail. rewrite Hgen, Hget. cbn [negb].
  unfold try_except_raise, bind, lift, append, append_bits, append_ok.
  cbn -[is_qubit_of is_clbit_of bits_nodup].
  rewrite Hdup.
  rewrite !is_qubit_of_set_data, !is_clbit_of_set_data, Ha, Hb, H0, H1, Hc0, Hc1.
  cbn [andb]. unfold macro_op. now rewrite <- app_assoc.
Qed.

(** ** The substitutions with the registers given as handles *)

Lemma substitution_substituted (c : QuantumCircuit) (reglist : list Bit * list Bit)
    (gates : list string) (qn cn : string) (o : op) :
  has_register c (PyReg (ClassicalRegister 2 cn)) = true ->
  has_register c (PyReg (QuantumRegister 2 qn)) = true ->
  (targeted reglist gates o = true -> name (op0 o) = "cx" ->
   substitutable c qn o = true) ->
  substitution c reglist gates (PyReg (ClassicalRegister 2 cn))
    (PyReg (QuantumRegister 2 qn)) o
  = Ok (substituted reglist gates qn cn o).
Proof.
  intros Hc Hq Hsub. unfold substitution, substituted, targeted, substitutable, kind_in in *.
  destruct (op1 o) as [|a [|b [|]]]; try reflexivity.
  destruct (str_in (name (op0 o)) gates && straddles reglist a b); [|reflexivity].
  destruct (String.eqb (name (op0 o)) "cx") eqn:Hcx; [|reflexivity].
  apply String.eqb_eq in Hcx. specialize (Hsub eq_refl Hcx).
  apply andb_true_iff in Hsub. destruct Hsub as [Hab Hdup].
  apply andb_true_iff in Hab. destruct Hab as [Ha Hb].
  unfold run_on.
  rewrite (addInstr_macro_handles "RemoteCX" a b [] cn qn (emptied c) eq_refl Hc Hq Ha Hb Hdup).
  reflexivity.
Qed.

Lemma splice_all_substituted (c : QuantumCircuit) (reglist : list Bit * list Bit)
    (gates : list string) (qn cn : string) (l : list op) :
  has_register c (PyReg (ClassicalRegister 2 cn)) = true ->
  has_register c (PyReg (QuantumRegister 2 qn)) = true ->
  (forall o, In o l -> targeted reglist gates o = true -> name (op0 o) = "cx" ->
     substitutable c qn o = true) ->
  splice_all (substitution c reglist gates (PyReg (ClassicalRegister 2 cn))
                (PyReg (QuantumRegister 2 qn))) l
  = Ok (flat_map (substituted reglist gates qn cn) l).
Proof.
  intros Hc Hq. induction l as [|o t IH]; intros H; [reflexivity|].
  cbn [splice_all flat_map].
  rewrite (substitution_substituted c reglist gates qn cn o Hc Hq (H o (or_introl eq_refl))).
  now rewrite IH by (intros; apply H; [now right | assumption | assumption]).
Qed.

(** ** The kinds a builder emits *)

Lemma kinds_of_app (d1 d2 : list op) : kinds_of (d1 ++ d2) = kinds_of d1 ++ kinds_of d2.
Proof. apply map_app. Qed.

Lemma kinds_of_set_last_condition (cnd : Bit * nat) (d : list op) :
  kinds_of (set_last_condition cnd d) = kinds_of d.
Proof.
  unfold set_last_condition. destruct (rev d) as [|o r] eqn:Hr.
  - apply (f_equal (@rev op)) in Hr. rewrite rev_involutive in Hr. now subst d.
  - apply (f_equal (@rev op)) in Hr. rewrite rev_involutive in Hr. subst d.
    cbn [rev]. now rewrite !kinds_of_app.
Qed.

Lemma emits_eq {A} (ks ks' : list string) (m : M A) :
  ks = ks' -> emits ks m -> emits ks' m.
Proof. now intros <-. Qed.

Lemma emits_bind {A B} (ks1 ks2 : list string) (m : M A) (f : A -> M B) :
  emits ks1 m -> (forall a, emits ks2 (f a)) -> emits (ks1 ++ ks2) (bind m f).
Proof.
  intros Hm Hf c b c' Hrun.
  destruct (bind_cases m f c c' (Ok b) Hrun) as [[e [_ He]]|[a [c1 [H1 H2]]]];
    [discriminate|].
  rewrite (Hf a _ _ _ H2), (Hm _ _ _ H1). now rewrite app_assoc.
Qed.

Lemma emits_lift {A} (r : result A) : emits [] (lift r).
Proof.
  intros c a c' H. unfold lift in H. inversion H; subst. now rewrite app_nil_r.
Qed.

Lemma emits_ret {A} (a : A) : emits [] (ret a).
Proof.
  intros c a' c' H. unfold ret in H. inversion H; subst. now rewrite app_nil_r.
Qed.

Lemma emits_raise {A} (ks : list string) (e : exn) : emits ks (@raise A e).
Proof. intros c a c' H. discriminate. Qed.

Lemma emits_append (nm : string) (i : Instruction) (qargs cargs : list pyval) :
  name i = nm -> emits [nm] (append i qargs cargs).
Proof.
  intros <- c a c' Hrun.
  destruct (append_cases i qargs cargs c) as [H|(qs & cs & _ & _ & _ & H)];
    rewrite H in Hrun; inversion Hrun; subst.
  cbn [data set_data]. now rewrite kinds_of_app.
Qed.

Lemma emits_c_if (cb : result pyval) (v : nat) : emits [] (c_if cb v).
Proof.
  intros c a c' Hrun.
  destruct (c_if_cases cb v c) as [[e H]|(b & _ & _ & H)];
    rewrite H in Hrun; inversion Hrun; subst.
  cbn [data set_data]. now rewrite kinds_of_set_last_condition, app_nil_r.
Qed.

Ltac emits_steps :=
  repeat first
    [ eapply emits_c_if
    | eapply emits_append; cbn [name]; reflexivity
    | eapply emits_lift
    | eapply emits_ret
    | eapply emits_bind; [|intro] ].

Ltac emits_builder :=
  unfold h, x, z, rz, cnot, swap, measure, gate;
  eapply emits_eq; [|emits_steps]; reflexivity.

Lemma emits_setAncilla (a b : pyval) : emits (emitted_kinds "GenEPR") (setAncilla a b).
Proof. unfold setAncilla. emits_builder. Qed.

Lemma emits_buildRemoteCX (a b c d e : pyval) :
  emits (emitted_kinds "RemoteCX") (buildRemoteCX a b c d e).
Proof. unfold buildRemoteCX. emits_builder. Qed.

Lemma emits_buildRemoteZZ (p a b c d e : pyval) :
  emits (emitted_kinds "RemoteRZZ") (buildRemoteZZ p a b c d e).
Proof. unfold buildRemoteZZ. emits_builder. Qed.

Lemma emits_buildRemoteCRZ (p a b c d e : pyval) :
  emits (emitted_kinds "RemoteCRZ") (buildRemoteCRZ p a b c d e).
Proof. unfold buildRemoteCRZ. emits_builder. Qed.

Lemma emits_buildTeleportation (a b c d e : pyval) :
  emits (emitted_kinds "Teleport") (buildTeleportation a b c d e).
Proof. unfold buildTeleportation. emits_builder. Qed.

(** Whatever the kind and the arguments, the builder that [decompose]
    calls emits the kinds of its kind when it returns. *)
Lemma emits_dispatch (nm : string) (args : list pyval) :
  emits (emitted_kinds nm) (dispatch nm args).
Proof.
  unfold dispatch, emitted_kinds.
  destruct (String.eqb nm "RemoteCX").
  { unfold call_buildRemoteCX.
    destruct args as [|a [|b [|c [|d [|e [|f l]]]]]];
      try apply emits_raise. apply emits_buildRemoteCX. }
  destruct (String.eqb nm "RemoteRZZ").
  { unfold call_buildRemoteZZ.
    destruct args as [|p [|a [|b [|c [|d [|e [|f l]]]]]]];
      try apply emits_raise. apply emits_buildRemoteZZ. }
  destruct (String.eqb nm "RemoteCRZ").
  { unfold call_buildRemoteCRZ.
    destruct args as [|p [|a [|b [|c [|d [|e [|f l]]]]]]];
      try apply emits_raise. apply emits_buildRemoteCRZ. }
  destruct (String.eqb nm "Teleport").
  { unfold call_buildTeleportation.
    destruct args as [|a [|b [|c [|d [|e [|f l]]]]]];
      try apply emits_raise. apply emits_buildTeleportation. }
  destruct (String.eqb nm "GenEPR").
  { unfold call_setAncilla.
    destruct args as [|a [|b [|c [|d l]]]];
      try apply emits_raise; apply emits_setAncilla. }
  apply emits_ret.
Qed.

Lemma expansion_kinds (circ : QuantumCircuit) (gates : list string) (o : op) (ch : list op) :
  expansion circ gates o = Ok ch -> kinds_of ch = output_kinds gates o.
Proof.
  unfold expansion, output_kinds, kind_in. destruct (str_in _ gates).
  - unfold run_on. destruct (dispatch _ _ _) as [[[]|e] tmp] eqn:Hrun; [|discriminate].
    intros H. inversion H; subst.
    exact (emits_dispatch _ _ _ _ _ Hrun).
  - intros H. now inversion H.
Qed.

Lemma splice_all_output_kinds (circ : QuantumCircuit) (gates : list string) (l r : list op) :
  splice_all (expansion circ gates) l = Ok r ->
  kinds_of r = flat_map (output_kinds gates) l.
Proof.
  revert r. induction l as [|o t IH]; cbn [splice_all flat_map]; intros r H.
  - now inversion H.
  - destruct (expansion circ gates o) as [ch|e] eqn:Hex; [|discriminate].
    destruct (splice_all (expansion circ gates) t) as [rt|e]; [|discriminate].
    inversion H; subst.
    now rewrite kinds_of_app, (expansion_kinds circ gates o ch Hex), (IH rt eq_refl).
Qed.

Lemma existsb_flat_map {A B} (p : B -> bool) (f : A -> list B) (l : list A) :
  existsb p (flat_map f l) = existsb (fun a => existsb p (f a)) l.
Proof.
  induction l as [|a t IH]; [reflexivity|].
  cbn [flat_map existsb]. now rewrite existsb_app, IH.
Qed.

Lemma existsb_same {A} (p q : A -> bool) (l : list A) :
  (forall a, p a = q a) -> existsb p l = existsb q l.
Proof.
  intros H. induction l as [|a t IH]; [reflexivity|].
  cbn [existsb]. now rewrite H, IH.
Qed.

Lemma existsb_kinds_of (gates : list string) (d : list op) :
  existsb (kind_in gates) d = existsb (fun k => str_in k gates) (kinds_of d).
Proof.
  unfold kinds_of. induction d as [|o t IH]; [reflexivity|].
  cbn [existsb map]. now rewrite IH.
Qed.

Lemma emits_asked_kind_output (gates : list string) (o : op) :
  existsb (fun k => str_in k gates) (output_kinds gates o) = emits_asked_kind gates o.
Proof.
  unfold output_kinds, emits_asked_kind.
  destruct (kind_in gates o) eqn:Hk; [reflexivity|].
  cbn [existsb andb]. unfold kind_in in Hk. now rewrite Hk.
Qed.

(** ** decompose returns on well-formed macro instructions *)

Lemma expansion_returns (c : QuantumCircuit) (gates : list string) (o : op) :
  (kind_in gates o = true -> kind_in default_gates o = true ->
   well_formed_macro c o = true) ->
  exists ch, expansion c gates o = Ok ch.
Proof.
  intros H. destruct (kind_in gates o) eqn:Hk.
  - destruct (kind_in default_gates o) eqn:Hd.
    + exists (macro_sequence o).
      pose proof (expansion_well_formed c o Hd (H eq_refl eq_refl)) as Hex.
      unfold expansion in *. unfold kind_in in Hk, Hd. now rewrite Hd in Hex; rewrite Hk.
    + exists []. apply expansion_other_kind. unfold other_kind. now rewrite Hk, Hd.
  - exists [o]. unfold expansion. unfold kind_in in Hk. now rewrite Hk.
Qed.

Lemma splice_all_returns (c : QuantumCircuit) (gates : list string) (l : list op) :
  (forall o, In o l -> kind_in gates o = true -> kind_in default_gates o = true ->
     well_formed_macro c o = true) ->
  exists r, splice_all (expansion c gates) l = Ok r.
Proof.
  induction l as [|o t IH]; intros H; [now exists []|].
  destruct (expansion_returns c gates o (H o (or_introl eq_refl))) as [ch Hch].
  destruct IH as [r Hr]; [intros; apply H; auto; now right|].
  exists (ch ++ r). cbn [splice_all]. now rewrite Hch, Hr.
Qed.

(** * The specification, claim by claim *)

(** ** Macro insertion with an unknown name *)

(** C1, as the specification states it, fails: with the two entanglement
    registers given as handles of registers of the circuit, [addInstr] with
    the name ["Bogus"] raises, and the instruction sequence is no longer the
    one it was. *)
Lemma addInstr_unknown_name_appends :
  str_in "Bogus" default_gates = false
  /\ fst (addInstr "Bogus" (PyBit Ex.q0) (PyBit Ex.q1) []
            (PyReg Ex.c_epr) (PyReg Ex.q_epr) Ex.provisioned)
     = Raise undefined_instruction
  /\ data (snd (addInstr "Bogus" (PyBit Ex.q0) (PyBit Ex.q1) []
                  (PyReg Ex.c_epr) (PyReg Ex.q_epr) Ex.provisioned))
     = [GenEPR_op [] Ex.e0 Ex.e1]
  /\ data (snd (addInstr "Bogus" (PyBit Ex.q0) (PyBit Ex.q1) []
                  (PyReg Ex.c_epr) (PyReg Ex.q_epr) Ex.provisioned))
     <> data Ex.provisioned.
Proof. repeat split; try reflexivity. discriminate. Qed.

(** C1 (amended): for every circuit, [addInstr] with a name outside the
    table of the five macro kinds raises, and appends no instruction of that
    name.  When the call gets as far as the lookup of the name, the exception
    is "Undefined instruction!" and the instruction sequence is the old one
    followed by exactly one [GenEPR] instruction, appended before the lookup;
    it is unchanged only when the call fails earlier, in the resolution of
    the registers or in the [GenEPR] append. *)
Theorem addInstr_unknown_name (nm : string) (qb1 qb2 : pyval) (params : list param)
    (epr_creg epr_qreg : pyval) (circ : QuantumCircuit) :
  str_in nm default_gates = false ->
  exists e circ',
    addInstr nm qb1 qb2 params epr_creg epr_qreg circ = (Raise e, circ')
    /\ ((e = undefined_instruction
         /\ exists e0 e1, data circ' = data circ ++ [GenEPR_op params e0 e1])
        \/ (e <> undefined_instruction /\ data circ' = data circ)).
Proof.
  intros Hnm.
  destruct (addInstr_stages nm qb1 qb2 params epr_creg epr_qreg circ)
    as [(e & c1 & He & Hrun & Hd)
       |(creg & qreg & q0 & q1 & e0 & e1 & c1 & Hd & _ & _ & _ & Hrun)].
  - exists e, c1. split; [assumption|]. right.
    split; [now apply early_failure_not_undefined | assumption].
  - exists undefined_instruction, (set_data c1 (data c1 ++ [GenEPR_op params e0 e1])).
    split.
    + rewrite Hrun. unfold addInstr_tail.
      assert (Hg : String.eqb nm "GenEPR" = false).
      { unfold str_in, default_gates in Hnm. cbn [existsb] in Hnm.
        rewrite !orb_false_iff in Hnm. tauto. }
      rewrite Hg. cbn [negb]. unfold try_except_raise, bind, lift.
      now rewrite (dict_get_unknown params nm Hnm).
    + left. split; [reflexivity|]. exists e0, e1. simpl. now rewrite Hd.
Qed.

Lemma addInstr_unknown_name_witness :
  exists e circ',
    addInstr "Bogus" (PyBit Ex.q0) (PyBit Ex.q1) [] PyNone PyNone Ex.bare = (Raise e, circ')
    /\ ((e = undefined_instruction
         /\ exists e0 e1, data circ' = data Ex.bare ++ [GenEPR_op [] e0 e1])
        \/ (e <> undefined_instruction /\ data circ' = data Ex.bare)).
Proof.
  apply (addInstr_unknown_name "Bogus" (PyBit Ex.q0) (PyBit Ex.q1) [] PyNone PyNone Ex.bare).
  reflexivity.
Defined.

(** ** Substitution of a kind that has no remote counterpart *)

(** C2: with ["cz"] among the targeted kinds, a [cz] between a qubit of the
    first partition and one of the second is neither replaced nor reported:
    the call returns normally and the instruction is gone. *)
Theorem autosubstitute_unsupported_kind_dropped :
  autosubstitute ([Ex.q0], [Ex.q1]) ["cz"] (PyReg Ex.q_epr) (PyReg Ex.c_epr)
    (set_data Ex.provisioned [Ex.h_op Ex.q0; Ex.cz_op Ex.q0 Ex.q1; Ex.h_op Ex.q1])
  = (Ok tt, set_data Ex.provisioned [Ex.h_op Ex.q0; Ex.h_op Ex.q1]).
Proof. reflexivity. Qed.

(** ** The expansion of one remote CX *)

(** C3: a circuit whose only instruction is a RemoteCX on the qubits
    (q0, q1, e0, e1) and the classical bits (c0, c1) of the circuit, q0
    differing from e0 and e1 from q1, is rewritten by [decompose] into the
    ten instructions CNOT(q0,e0); CNOT(e1,q1); measure(e0,c0); X(e1) if c0;
    X(q1) if c0; H(e1); measure(e1,c1); Z(q0) if c1; X(e0) if c0;
    X(e1) if c1, in this order. *)
Theorem decompose_remote_cx (circ : QuantumCircuit) (i : Instruction)
    (q0 q1 e0 e1 c0 c1 : Bit) :
  name i = "RemoteCX" -> params i = [] ->
  data circ = [(i, [q0; q1; e0; e1], [c0; c1])] ->
  is_qubit_of circ q0 = true -> is_qubit_of circ q1 = true ->
  is_qubit_of circ e0 = true -> is_qubit_of circ e1 = true ->
  is_clbit_of circ c0 = true -> is_clbit_of circ c1 = true ->
  Bit_eqb q0 e0 = false -> Bit_eqb e1 q1 = false ->
  decompose default_gates circ =
    (Ok tt,
     set_data circ
       [ CNOT q0 e0; CNOT e1 q1; MEASURE e0 c0; X_IF c0 e1; X_IF c0 q1;
         HADAMARD e1; MEASURE e1 c1; Z_IF c1 q0; X_IF c0 e0; X_IF c1 e1 ]).
Proof.
  intros Hn Hp Hd Hq0 Hq1 He0 He1 Hc0 Hc1 Hqe Heq.
  rewrite decompose_output, Hd.
  unfold splice_all, expansion, star_args, op0, op1, op2. simpl fst. simpl snd.
  rewrite Hn, Hp.
  change (str_in "RemoteCX" default_gates) with true. cbv iota.
  unfold dispatch. change (String.eqb "RemoteCX" "RemoteCX") with true. cbv iota.
  simpl map. simpl app. unfold call_buildRemoteCX, buildRemoteCX, run_on.
  unfold cnot, measure, x, z, h, gate, emptied.
  unfold bind, append, append_bits, lift, c_if, append_ok.
  repeat (cbn -[is_qubit_of is_clbit_of Bit_eqb];
          rewrite ?is_qubit_of_set_data, ?is_clbit_of_set_data,
                  ?Hq0, ?Hq1, ?He0, ?He1, ?Hc0, ?Hc1, ?Hqe, ?Heq).
  reflexivity.
Qed.

Lemma decompose_remote_cx_witness :
  decompose default_gates (set_data Ex.provisioned [Ex.remote_cx_op]) =
    (Ok tt,
     set_data (set_data Ex.provisioned [Ex.remote_cx_op])
       [ CNOT Ex.q0 Ex.e0; CNOT Ex.e1 Ex.q1; MEASURE Ex.e0 Ex.c0;
         X_IF Ex.c0 Ex.e1; X_IF Ex.c0 Ex.q1; HADAMARD Ex.e1;
         MEASURE Ex.e1 Ex.c1; Z_IF Ex.c1 Ex.q0; X_IF Ex.c0 Ex.e0;
         X_IF Ex.c1 Ex.e1 ]).
Proof.
  apply (decompose_remote_cx (set_data Ex.provisioned [Ex.remote_cx_op])
           (mkInstr "RemoteCX" 4 2 [] None) Ex.q0 Ex.q1 Ex.e0 Ex.e1 Ex.c0 Ex.c1);
    reflexivity.
Defined.

(** ** The register utilities on a register that is already there *)

(** C7: on a circuit that has the classical register [c_epr] and the
    quantum register [q_epr], the utilities called with these names report
    that nothing was created and leave the circuit as it is, but what they
    return is the name, not the register. *)
Theorem get_regs_by_name_return_the_name :
  get_cregs (PyStr "c_epr") Ex.provisioned = (Ok (PyStr "c_epr", false), Ex.provisioned)
  /\ get_qregs (PyStr "q_epr") Ex.provisioned = (Ok (PyStr "q_epr", false), Ex.provisioned)
  /\ PyStr "c_epr" <> PyReg Ex.c_epr
  /\ PyStr "q_epr" <> PyReg Ex.q_epr.
Proof. repeat split; discriminate. Qed.

(** ** Macro insertion with the registers given by name *)

(** C10: on a circuit that has the 2-unit registers named [cn] (classical)
    and [qn] (quantum), the utilities called with these names return the
    names themselves, and [addInstr] called with them raises and leaves the
    circuit as it was: no instruction is appended. *)
Theorem addInstr_registers_by_name_fails (nm : string) (qb1 qb2 : pyval)
    (params : list param) (cn qn : string) (circ : QuantumCircuit) :
  has_register circ (PyReg (ClassicalRegister 2 cn)) = true ->
  has_register circ (PyReg (QuantumRegister 2 qn)) = true ->
  get_cregs (PyStr cn) circ = (Ok (PyStr cn, false), circ)
  /\ get_qregs (PyStr qn) circ = (Ok (PyStr qn, false), circ)
  /\ exists e, addInstr nm qb1 qb2 params (PyStr cn) (PyStr qn) circ = (Raise e, circ).
Proof.
  intros Hc Hq.
  pose proof (get_cregs_name cn circ Hc) as Hgc.
  pose proof (get_qregs_name qn circ Hq) as Hgq.
  split; [assumption|]. split; [assumption|].
  unfold addInstr.
  rewrite (bind_ok _ _ _ _ _ Hgc), (bind_ok _ _ _ _ _ Hgq). cbn [fst].
  destruct qn as [|a [|b qn]].
  - exists IndexError. reflexivity.
  - exists IndexError. reflexivity.
  - exists CircuitError. reflexivity.
Qed.

Lemma addInstr_registers_by_name_fails_witness :
  get_cregs (PyStr "c_epr") Ex.provisioned = (Ok (PyStr "c_epr", false), Ex.provisioned)
  /\ get_qregs (PyStr "q_epr") Ex.provisioned = (Ok (PyStr "q_epr", false), Ex.provisioned)
  /\ exists e, addInstr "RemoteCX" (PyBit Ex.q0) (PyBit Ex.q1) []
                 (PyStr "c_epr") (PyStr "q_epr") Ex.provisioned
               = (Raise e, Ex.provisioned).
Proof.
  apply (addInstr_registers_by_name_fails "RemoteCX" (PyBit Ex.q0) (PyBit Ex.q1) []
           "c_epr" "q_epr" Ex.provisioned); reflexivity.
Defined.

(** ** No residual instruction of the expanded kinds *)

(** C4, as the specification states it, fails: asked to expand both
    ["RemoteCX"] and ["cx"], [decompose] leaves the [cx] instructions of the
    expansion of the remote CX in the instruction sequence. *)
Lemma decompose_leaves_emitted_kind :
  fst (decompose ["RemoteCX"; "cx"] (set_data Ex.provisioned [Ex.remote_cx_op])) = Ok tt
  /\ existsb (kind_in ["RemoteCX"; "cx"])
       (data (snd (decompose ["RemoteCX"; "cx"]
                     (set_data Ex.provisioned [Ex.remote_cx_op])))) = true.
Proof. split; reflexivity. Qed.

(** C4 (amended): for every circuit and every list of kinds, [decompose]
    returns whenever the macro instructions whose kind is asked for are well
    formed, and leaves the circuit as it was when it raises.  When it
    returns, the kinds of the output are those of the input, the kind of
    each instruction asked for being replaced by the kinds that its builder
    emits; hence the output has an instruction whose kind is in the list if
    and only if the input has an instruction whose kind is in the list and
    whose builder emits an instruction of a kind in the list. *)
Theorem decompose_no_residual (gates : list string) (circ : QuantumCircuit) :
  ((forall o, In o (data circ) -> kind_in gates o = true ->
      kind_in default_gates o = true -> well_formed_macro circ o = true) ->
   fst (decompose gates circ) = Ok tt)
  /\ match decompose gates circ with
     | (Raise _, circ') => circ' = circ
     | (Ok _, circ') =>
         kinds_of (data circ') = flat_map (output_kinds gates) (data circ)
         /\ existsb (kind_in gates) (data circ')
            = existsb (emits_asked_kind gates) (data circ)
     end.
Proof.
  rewrite decompose_output. split.
  - intros Hwf. now destruct (splice_all_returns circ gates (data circ) Hwf) as [r ->].
  - destruct (splice_all (expansion circ gates) (data circ)) as [r|e] eqn:Hs;
      [|reflexivity].
    pose proof (splice_all_output_kinds circ gates (data circ) r Hs) as Hk.
    cbn [data set_data]. split; [exact Hk|].
    rewrite existsb_kinds_of, Hk, existsb_flat_map.
    apply existsb_same. apply emits_asked_kind_output.
Qed.

Lemma decompose_no_residual_witness :
  fst (decompose ["RemoteCX"; "swap"; "rz"]
         (set_data Ex.provisioned [Ex.h_op Ex.q0; Ex.remote_cx_op; SWAP Ex.q0 Ex.q1]))
  = Ok tt
  /\ existsb (kind_in ["RemoteCX"; "swap"; "rz"])
       (data (snd (decompose ["RemoteCX"; "swap"; "rz"]
                     (set_data Ex.provisioned
                        [Ex.h_op Ex.q0; Ex.remote_cx_op; SWAP Ex.q0 Ex.q1]))))
     = false.
Proof.
  destruct (decompose_no_residual ["RemoteCX"; "swap"; "rz"]
              (set_data Ex.provisioned [Ex.h_op Ex.q0; Ex.remote_cx_op; SWAP Ex.q0 Ex.q1]))
    as [Hret Hout].
  split.
  - apply Hret. intros o Hin Hk Hd. simpl in Hin.
    repeat (destruct Hin as [<-|Hin];
            [solve [reflexivity | vm_compute in Hd; discriminate]|]).
    contradiction.
  - destruct (decompose ["RemoteCX"; "swap"; "rz"] _) as [[[]|e] c'] eqn:Hrun.
    + cbn [snd]. destruct Hout as [_ ->]. reflexivity.
    + vm_compute in Hrun. discriminate.
Defined.

(** ** Order preservation *)



(** ** Kinds asked for that are no macro kind *)

(** C9: an instruction whose kind is in the list given to [decompose] but
    is none of the five macro kinds is deleted without replacement and
    without error: alone it is rewritten into the empty sequence; in any
    circuit the outcome is the one for the circuit without these
    instructions; and when no other instruction is asked for, the output is
    the input without them. *)
Theorem decompose_deletes_other_kinds (gates : list string) (circ : QuantumCircuit) :
  (forall o, other_kind gates o = true ->
     decompose gates (set_data circ [o]) = (Ok tt, set_data circ []))
  /\ output (decompose gates circ)
     = output (decompose gates
                 (set_data circ (filter (fun o => negb (other_kind gates o)) (data circ))))
  /\ ((forall o, In o (data circ) -> kind_in gates o = true ->
         kind_in default_gates o = false) ->
      decompose gates circ
      = (Ok tt, set_data circ (filter (fun o => negb (kind_in gates o)) (data circ)))).
Proof.
  split; [|split].
  - intros o Ho. apply decompose_on. simpl.
    now rewrite (expansion_other_kind circ gates o Ho).
  - rewrite !decompose_output. simpl data.
    change (expansion (set_data circ (filter (fun o => negb (other_kind gates o))
                                       (data circ))) gates)
      with (expansion circ gates).
    rewrite <- splice_all_without_other_kinds.
    now destruct (splice_all _ _).
  - intros H. rewrite decompose_output.
    now rewrite (splice_all_only_other_kinds circ gates (data circ) H).
Qed.

Lemma decompose_deletes_other_kinds_witness :
  decompose ["cx"; "h"] (set_data Ex.provisioned [Ex.cx_op Ex.q0 Ex.q1])
  = (Ok tt, set_data Ex.provisioned []).
Proof.
  apply (proj1 (decompose_deletes_other_kinds ["cx"; "h"] Ex.provisioned)
           (Ex.cx_op Ex.q0 Ex.q1)).
  reflexivity.
Defined.

(** ** Determinism *)

(** C8: [decompose] and [autosubstitute] are functions of the circuit and
    of their parameters, and of the list of kinds and of the two partitions
    they only use the elements: equal circuits, equal register arguments,
    and lists of kinds and partitions that are equal as sets give the same
    outcome and the same circuit. *)
Theorem passes_deterministic (c1 c2 : QuantumCircuit) (g1 g2 : list string)
    (r1 r2 : list Bit * list Bit) (q1 q2 k1 k2 : pyval) :
  c1 = c2 -> q1 = q2 -> k1 = k2 ->
  same_elements g1 g2 ->
  same_elements (fst r1) (fst r2) -> same_elements (snd r1) (snd r2) ->
  decompose g1 c1 = decompose g2 c2
  /\ autosubstitute r1 g1 q1 k1 c1 = autosubstitute r2 g2 q2 k2 c2.
Proof.
  intros <- <- <- Hg H1 H2. split.
  - rewrite !decompose_output.
    now rewrite (splice_all_ext _ _ (data c1) (fun o => expansion_same c1 g1 g2 o Hg)).
  - rewrite !autosubstitute_output. unfold bind.
    destruct (get_cregs k1 c1) as [[cr|e] c3]; [|reflexivity].
    destruct (get_qregs q1 c3) as [[qr|e] c4]; [|reflexivity].
    unfold autosubstitute_splice.
    now rewrite (splice_all_ext _ _ (data c4)
                   (fun o => substitution_same c4 r1 r2 g1 g2 (fst cr) (fst qr) o Hg H1 H2)).
Qed.

Lemma passes_deterministic_witness :
  decompose ["cx"; "RemoteCX"] Ex.mixed = decompose ["RemoteCX"; "cx"; "cx"] Ex.mixed
  /\ autosubstitute ([Ex.q0; Ex.e0], [Ex.q1]) ["cx"; "RemoteCX"]
       (PyReg Ex.q_epr) (PyReg Ex.c_epr) Ex.mixed
     = autosubstitute ([Ex.e0; Ex.q0], [Ex.q1; Ex.q1]) ["RemoteCX"; "cx"; "cx"]
         (PyReg Ex.q_epr) (PyReg Ex.c_epr) Ex.mixed.
Proof.
  apply (passes_deterministic Ex.mixed Ex.mixed
           ["cx"; "RemoteCX"] ["RemoteCX"; "cx"; "cx"]
           ([Ex.q0; Ex.e0], [Ex.q1]) ([Ex.e0; Ex.q0], [Ex.q1; Ex.q1])
           (PyReg Ex.q_epr) (PyReg Ex.q_epr) (PyReg Ex.c_epr) (PyReg Ex.c_epr));
    try reflexivity; intros v; simpl; tauto.
Defined.

(** ** Partition correctness *)




(** * Further properties of the builders and of the passes *)

(** ** The sequences the builders append *)

Lemma set_last_condition_snoc (cnd : Bit * nat) (d : list op) (o : op) :
  set_last_condition cnd (d ++ [o]) = d ++ [with_condition cnd o].
Proof.
  unfold set_last_condition. rewrite rev_app_distr. simpl.
  now rewrite rev_involutive.
Qed.

Ltac run_gates :=
  unfold cnot, measure, x, z, h, rz, swap, gate, half, neg_half, as_param;
  unfold bind, append, append_bits, lift, c_if, append_ok;
  repeat (cbn -[is_qubit_of is_clbit_of Bit_eqb set_last_condition subscript];
          rewrite ?set_last_condition_snoc, ?is_qubit_of_set_data, ?is_clbit_of_set_data);
  repeat match goal with
         | H : _ = true |- _ => rewrite H
         | H : _ = false |- _ => rewrite H
         | H : subscript _ _ = Ok _ |- _ => rewrite H
         | _ => progress (cbn -[is_qubit_of is_clbit_of Bit_eqb set_last_condition subscript];
                          rewrite ?set_last_condition_snoc, ?is_qubit_of_set_data,
                                  ?is_clbit_of_set_data)
         end.

(** X1: on two distinct qubits of the circuit, [setAncilla] appends a
    Hadamard on the first and a CNOT from the first to the second after the
    instructions that are there, and nothing else. *)
Theorem setAncilla_appends (c : QuantumCircuit) (e0 e1 : Bit) :
  is_qubit_of c e0 = true -> is_qubit_of c e1 = true -> Bit_eqb e0 e1 = false ->
  setAncilla (PyBit e0) (PyBit e1) c
  = (Ok tt, set_data c (data c ++ [HADAMARD e0; CNOT e0 e1])).
Proof.
  intros H0 H1 Hne. unfold setAncilla. run_gates.
  now rewrite <- !app_assoc.
Qed.

Lemma setAncilla_appends_witness :
  setAncilla (PyBit Ex.e0) (PyBit Ex.e1) Ex.mixed
  = (Ok tt, set_data Ex.mixed (data Ex.mixed ++ [HADAMARD Ex.e0; CNOT Ex.e0 Ex.e1])).
Proof.
  apply (setAncilla_appends Ex.mixed Ex.e0 Ex.e1); reflexivity.
Defined.

(** X2: on qubits and classical bits of the circuit, control differing from
    the first ancilla and target from the second, [buildRemoteCRZ] appends
    these eleven instructions, the rotations by [phi/2], [phi/2] and
    [(-phi)/2] as float division computes them (for the smallest positive
    float they are by 0.0, 0.0 and -0.0). *)
Theorem buildRemoteCRZ_appends (c : QuantumCircuit) (phi : param)
    (ctrl targ epr0 epr1 c0 c1 : Bit) (creg : pyval) :
  subscript creg 0 = Ok (PyBit c0) -> subscript creg 1 = Ok (PyBit c1) ->
  is_qubit_of c ctrl = true -> is_qubit_of c targ = true ->
  is_qubit_of c epr0 = true -> is_qubit_of c epr1 = true ->
  is_clbit_of c c0 = true -> is_clbit_of c c1 = true ->
  Bit_eqb ctrl epr0 = false -> Bit_eqb targ epr1 = false ->
  buildRemoteCRZ (PyNum phi) (PyBit ctrl) (PyBit targ) (PyBit epr0) (PyBit epr1) creg c
  = (Ok tt,
     set_data c
       (data c ++
        [ RZ (phi / 2)%float ctrl; RZ (phi / 2)%float targ; CNOT ctrl epr0;
          MEASURE epr0 c0; X_IF c0 epr1; CNOT targ epr1; RZ (- phi / 2)%float epr1;
          HADAMARD epr1;
          MEASURE epr1 c1; Z_IF c1 ctrl; Z_IF c1 targ ])).
Proof.
  intros. unfold buildRemoteCRZ. run_gates.
  now rewrite <- !app_assoc.
Qed.

Lemma buildRemoteCRZ_appends_witness :
  buildRemoteCRZ (PyNum 0x1p-1074%float) (PyBit Ex.q0) (PyBit Ex.q1) (PyBit Ex.e0) (PyBit Ex.e1)
    (PyReg Ex.c_epr) Ex.mixed
  = (Ok tt,
     set_data Ex.mixed
       (data Ex.mixed ++
        [ RZ 0%float Ex.q0; RZ 0%float Ex.q1; CNOT Ex.q0 Ex.e0;
          MEASURE Ex.e0 Ex.c0; X_IF Ex.c0 Ex.e1; CNOT Ex.q1 Ex.e1;
          RZ (-0)%float Ex.e1; HADAMARD Ex.e1; MEASURE Ex.e1 Ex.c1;
          Z_IF Ex.c1 Ex.q0; Z_IF Ex.c1 Ex.q1 ])).
Proof.
  apply (buildRemoteCRZ_appends Ex.mixed 0x1p-1074%float Ex.q0 Ex.q1 Ex.e0 Ex.e1 Ex.c0 Ex.c1
           (PyReg Ex.c_epr)); reflexivity.
Defined.

(** X3: on qubits and classical bits of the circuit, the first qubit
    differing from the first ancilla and the second from the second,
    [buildRemoteZZ] appends these eleven instructions; the X on the second
    ancilla that follows the first measurement is conditioned on the second
    classical bit, which is only measured three instructions later. *)
Theorem buildRemoteZZ_appends (c : QuantumCircuit) (phi : param)
    (qb1 qb2 epr0 epr1 c0 c1 : Bit) (creg : pyval) :
  subscript creg 0 = Ok (PyBit c0) -> subscript creg 1 = Ok (PyBit c1) ->
  is_qubit_of c qb1 = true -> is_qubit_of c qb2 = true ->
  is_qubit_of c epr0 = true -> is_qubit_of c epr1 = true ->
  is_clbit_of c c0 = true -> is_clbit_of c c1 = true ->
  Bit_eqb qb1 epr0 = false -> Bit_eqb qb2 epr1 = false ->
  buildRemoteZZ (PyNum phi) (PyBit qb1) (PyBit qb2) (PyBit epr0) (PyBit epr1) creg c
  = (Ok tt,
     set_data c
       (data c ++
        [ CNOT qb1 epr0; CNOT qb2 epr1; MEASURE epr0 c0; X_IF c1 epr1;
          RZ phi epr1; HADAMARD epr1; MEASURE epr1 c1; Z_IF c1 qb1; Z_IF c1 qb2;
          X_IF c0 epr0; X_IF c1 epr1 ])).
Proof.
  intros. unfold buildRemoteZZ. run_gates.
  now rewrite <- !app_assoc.
Qed.

Lemma buildRemoteZZ_appends_witness :
  buildRemoteZZ (PyNum 1.5%float) (PyBit Ex.q0) (PyBit Ex.q1) (PyBit Ex.e0) (PyBit Ex.e1)
    (PyBits [Ex.c0; Ex.c1]) Ex.mixed
  = (Ok tt,
     set_data Ex.mixed
       (data Ex.mixed ++
        [ CNOT Ex.q0 Ex.e0; CNOT Ex.q1 Ex.e1; MEASURE Ex.e0 Ex.c0; X_IF Ex.c1 Ex.e1;
          RZ 1.5%float Ex.e1; HADAMARD Ex.e1; MEASURE Ex.e1 Ex.c1;
          Z_IF Ex.c1 Ex.q0; Z_IF Ex.c1 Ex.q1; X_IF Ex.c0 Ex.e0; X_IF Ex.c1 Ex.e1 ])).
Proof.
  apply (buildRemoteZZ_appends Ex.mixed 1.5%float Ex.q0 Ex.q1 Ex.e0 Ex.e1 Ex.c0 Ex.c1
           (PyBits [Ex.c0; Ex.c1])); reflexivity.
Defined.

(** X4: on qubits and classical bits of the circuit, the source differing
    from the first ancilla and the second ancilla from the target,
    [buildTeleportation] appends these nine instructions, the last one the
    swap of the second ancilla with the target. *)
Theorem buildTeleportation_appends (c : QuantumCircuit)
    (source targ epr0 epr1 c0 c1 : Bit) (creg : pyval) :
  subscript creg 0 = Ok (PyBit c0) -> subscript creg 1 = Ok (PyBit c1) ->
  is_qubit_of c source = true -> is_qubit_of c targ = true ->
  is_qubit_of c epr0 = true -> is_qubit_of c epr1 = true ->
  is_clbit_of c c0 = true -> is_clbit_of c c1 = true ->
  Bit_eqb source epr0 = false -> Bit_eqb epr1 targ = false ->
  buildTeleportation (PyBit source) (PyBit targ) (PyBit epr0) (PyBit epr1) creg c
  = (Ok tt,
     set_data c
       (data c ++
        [ CNOT source epr0; HADAMARD source; MEASURE source c0; MEASURE epr0 c1;
          X_IF c1 epr1; Z_IF c0 epr1; X_IF c0 source; X_IF c1 epr0;
          SWAP epr1 targ ])).
Proof.
  intros. unfold buildTeleportation. run_gates.
  now rewrite <- !app_assoc.
Qed.

Lemma buildTeleportation_appends_witness :
  buildTeleportation (PyBit Ex.q0) (PyBit Ex.q1) (PyBit Ex.e0) (PyBit Ex.e1)
    (PyReg Ex.c_epr) Ex.mixed
  = (Ok tt,
     set_data Ex.mixed
       (data Ex.mixed ++
        [ CNOT Ex.q0 Ex.e0; HADAMARD Ex.q0; MEASURE Ex.q0 Ex.c0; MEASURE Ex.e0 Ex.c1;
          X_IF Ex.c1 Ex.e1; Z_IF Ex.c0 Ex.e1; X_IF Ex.c0 Ex.q0; X_IF Ex.c1 Ex.e0;
          SWAP Ex.e1 Ex.q1 ])).
Proof.
  apply (buildTeleportation_appends Ex.mixed Ex.q0 Ex.q1 Ex.e0 Ex.e1 Ex.c0 Ex.c1
           (PyReg Ex.c_epr)); reflexivity.
Defined.

(** X5: when indexing the classical argument at 0 raises (it is an empty
    list, say), [buildRemoteCX] on valid qubits raises that exception at the
    first measurement, and the two CNOTs it has appended by then stay on the
    circuit. *)
Theorem buildRemoteCX_short_creg (c : QuantumCircuit) (ctrl targ epr0 epr1 : Bit)
    (creg : pyval) (e : exn) :
  subscript creg 0 = Raise e ->
  is_qubit_of c ctrl = true -> is_qubit_of c targ = true ->
  is_qubit_of c epr0 = true -> is_qubit_of c epr1 = true ->
  Bit_eqb ctrl epr0 = false -> Bit_eqb epr1 targ = false ->
  buildRemoteCX (PyBit ctrl) (PyBit targ) (PyBit epr0) (PyBit epr1) creg c
  = (Raise e, set_data c (data c ++ [CNOT ctrl epr0; CNOT epr1 targ])).
Proof.
  intros Hs. intros. unfold buildRemoteCX. 
  unfold cnot, measure, x, z, h, gate.
  unfold bind, append, append_bits, lift, c_if, append_ok.
  rewrite Hs. run_gates.
  now rewrite <- !app_assoc.
Qed.

Lemma buildRemoteCX_short_creg_witness :
  buildRemoteCX (PyBit Ex.q0) (PyBit Ex.q1) (PyBit Ex.e0) (PyBit Ex.e1) (PyBits []) Ex.mixed
  = (Raise IndexError,
     set_data Ex.mixed (data Ex.mixed ++ [CNOT Ex.q0 Ex.e0; CNOT Ex.e1 Ex.q1])).
Proof.
  apply (buildRemoteCX_short_creg Ex.mixed Ex.q0 Ex.q1 Ex.e0 Ex.e1 (PyBits []) IndexError);
    reflexivity.
Defined.

(** ** decompose on well-formed macro instructions *)

Lemma splice_all_well_formed (c : QuantumCircuit) (l : list op) :
  (forall o, In o l -> kind_in default_gates o = true -> well_formed_macro c o = true) ->
  splice_all (expansion c default_gates) l = Ok (expanded l).
Proof.
  induction l as [|o t IH]; intros H; [reflexivity|].
  cbn [splice_all]. rewrite IH by (intros; apply H; [now right | assumption]).
  unfold expanded. cbn [flat_map].
  destruct (kind_in default_gates o) eqn:Hk.
  - now rewrite (expansion_well_formed c o Hk (H o (or_introl eq_refl) Hk)).
  - unfold expansion. unfold kind_in in Hk. now rewrite Hk.
Qed.

(** X6: on a circuit whose macro instructions are well formed, [decompose]
    with the default kinds succeeds, and its output is the input with each
    macro instruction replaced by the sequence of primitive instructions of
    its kind and every other instruction kept in place. *)
Theorem decompose_well_formed (c : QuantumCircuit) :
  (forall o, In o (data c) -> kind_in default_gates o = true ->
     well_formed_macro c o = true) ->
  decompose default_gates c = (Ok tt, set_data c (expanded (data c))).
Proof.
  intros H. rewrite decompose_output.
  now rewrite (splice_all_well_formed c (data c) H).
Qed.

Lemma decompose_well_formed_witness :
  decompose default_gates Ex2.all_macros
  = (Ok tt, set_data Ex2.all_macros (expanded (data Ex2.all_macros))).
Proof.
  apply (decompose_well_formed Ex2.all_macros).
  intros o Hin Hk. simpl in Hin.
  repeat (destruct Hin as [<-|Hin];
          [solve [reflexivity | vm_compute in Hk; discriminate]|]).
  contradiction.
Defined.

(** ** decompose when nothing, or nothing new, is asked for *)

Lemma splice_all_untouched (c : QuantumCircuit) (gates : list string) (l : list op) :
  (forall o, In o l -> kind_in gates o = false) ->
  splice_all (expansion c gates) l = Ok l.
Proof.
  induction l as [|o t IH]; intros H; [reflexivity|].
  cbn [splice_all]. rewrite IH by (intros; apply H; now right).
  unfold expansion. pose proof (H o (or_introl eq_refl)) as Hk.
  unfold kind_in in Hk. now rewrite Hk.
Qed.

Lemma set_data_same (c : QuantumCircuit) : set_data c (data c) = c.
Proof. now destruct c. Qed.

(** X7: a circuit none of whose instructions has a kind in the list given
    to [decompose] is returned as it is, without error; so are the empty
    circuit and every circuit when the list is empty. *)
Theorem decompose_nothing_to_expand (gates : list string) (c : QuantumCircuit) :
  (forall o, In o (data c) -> kind_in gates o = false) ->
  decompose gates c = (Ok tt, c).
Proof.
  intros H. rewrite decompose_output, (splice_all_untouched c gates (data c) H).
  now rewrite set_data_same.
Qed.

Lemma decompose_nothing_to_expand_witness :
  decompose default_gates Ex.partitioned = (Ok tt, Ex.partitioned).
Proof.
  apply (decompose_nothing_to_expand default_gates Ex.partitioned).
  intros o Hin. simpl in Hin.
  repeat (destruct Hin as [<-|Hin]; [reflexivity|]). contradiction.
Defined.

Lemma splice_all_kinds (c : QuantumCircuit) (gates : list string) (l r : list op) :
  (forall p, In p primitive_kinds -> str_in p gates = false) ->
  splice_all (expansion c gates) l = Ok r ->
  forall o, In o r -> kind_in gates o = false.
Proof.
  intros Hprim Hs o Hin.
  destruct (splice_all_In _ _ _ _ Hs Hin) as (o1 & ch & _ & Hex & Hch).
  destruct (expansion_cases c gates o1 ch Hex) as [[Hk ->]|[_ Hall]].
  - destruct Hch as [<-|[]]. exact Hk.
  - unfold all_primitive in Hall. rewrite Forall_forall in Hall.
    apply Hprim. now apply Hall.
Qed.

(** X8: when the list of kinds has none of the primitive kinds the builders
    emit, [decompose] is idempotent: applied to its own output it succeeds
    and changes nothing. *)
Theorem decompose_idempotent (gates : list string) (c c' : QuantumCircuit) :
  (forall p, In p primitive_kinds -> str_in p gates = false) ->
  decompose gates c = (Ok tt, c') ->
  decompose gates c' = (Ok tt, c').
Proof.
  intros Hprim Hrun. rewrite decompose_output in Hrun.
  destruct (splice_all (expansion c gates) (data c)) as [r|e] eqn:Hs; [|discriminate].
  inversion Hrun; subst c'.
  rewrite decompose_output.
  rewrite (splice_all_untouched (set_data c r) gates (data (set_data c r))).
  - now rewrite set_data_same.
  - intros o Hin. exact (splice_all_kinds c gates (data c) r Hprim Hs o Hin).
Qed.

Lemma decompose_idempotent_witness :
  decompose default_gates (snd (decompose default_gates Ex2.all_macros))
  = (Ok tt, snd (decompose default_gates Ex2.all_macros)).
Proof.
  apply (decompose_idempotent default_gates Ex2.all_macros).
  - intros p Hp. simpl in Hp.
    repeat (destruct Hp as [<-|Hp]; [reflexivity|]). contradiction.
  - reflexivity.
Defined.

(** ** decompose on a macro instruction of the wrong arity *)

Lemma star_args_length (o : op) :
  List.length (star_args o)
  = List.length (params (op0 o)) + List.length (op1 o) + 1.
Proof.
  unfold star_args. rewrite !length_app, !length_map. simpl. lia.
Qed.

Ltac arity_case args :=
  simpl; intros Hn;
  destruct args as [|? [|? [|? [|? [|? [|? [|? ?]]]]]]];
  try reflexivity; try discriminate Hn.

Lemma dispatch_wrong_arity (o : op) (tmp : QuantumCircuit) :
  wrong_arity o = true ->
  dispatch (name (op0 o)) (star_args o) tmp = (Raise TypeError, tmp).
Proof.
  unfold wrong_arity. rewrite <- star_args_length.
  generalize (star_args o) as args. generalize (name (op0 o)) as nm.
  intros nm args. unfold dispatch.
  destruct (String.eqb nm "RemoteCX") eqn:H1.
  { apply String.eqb_eq in H1. subst nm. arity_case args. }
  destruct (String.eqb nm "RemoteRZZ") eqn:H2.
  { apply String.eqb_eq in H2. subst nm. arity_case args. }
  destruct (String.eqb nm "RemoteCRZ") eqn:H3.
  { apply String.eqb_eq in H3. subst nm. arity_case args. }
  destruct (String.eqb nm "Teleport") eqn:H4.
  { apply String.eqb_eq in H4. subst nm. arity_case args. }
  destruct (String.eqb nm "GenEPR") eqn:H5.
  { apply String.eqb_eq in H5. subst nm. arity_case args. }
  simpl. discriminate.
Qed.

(** X9: when the first instruction whose kind is asked for is a macro
    instruction with a number of parameters and qubits that its builder does
    not take, [decompose] raises a [TypeError] and leaves the circuit as it
    was. *)
Theorem decompose_wrong_arity (gates : list string) (c : QuantumCircuit)
    (pre post : list op) (o : op) :
  data c = pre ++ o :: post ->
  (forall p, In p pre -> kind_in gates p = false) ->
  kind_in gates o = true ->
  wrong_arity o = true ->
  decompose gates c = (Raise TypeError, c).
Proof.
  intros Hd Hpre Hk Hw.
  rewrite decompose_output, Hd, splice_all_app.
  rewrite (splice_all_untouched c gates pre Hpre).
  cbn [splice_all]. unfold expansion at 1. unfold kind_in in Hk. rewrite Hk.
  unfold run_on. now rewrite (dispatch_wrong_arity o (emptied c) Hw).
Qed.

Lemma decompose_wrong_arity_witness :
  decompose default_gates
    (set_data Ex.provisioned [Ex.h_op Ex.q0; Ex2.remote_zz_no_param; Ex.remote_cx_op])
  = (Raise TypeError,
     set_data Ex.provisioned [Ex.h_op Ex.q0; Ex2.remote_zz_no_param; Ex.remote_cx_op]).
Proof.
  apply (decompose_wrong_arity default_gates
           (set_data Ex.provisioned [Ex.h_op Ex.q0; Ex2.remote_zz_no_param; Ex.remote_cx_op])
           [Ex.h_op Ex.q0] [Ex.remote_cx_op] Ex2.remote_zz_no_param);
    try reflexivity.
  intros p [<-|[]]. reflexivity.
Defined.

(** ** addInstr with the entanglement registers given as handles *)

(** X10: when the two entanglement registers are given as handles of
    2-unit registers of the circuit and the two primary qubits are qubits of
    the circuit, different from each other and from the two ancillas,
    [addInstr] with one of the four two-qubit macro kinds appends a [GenEPR]
    instruction on the two ancillas and then the macro instruction, with the
    given parameters, on the primary qubits followed by the ancillas and on
    the two classical bits; the registers of the circuit are unchanged. *)
Theorem addInstr_appends_macro (nm : string) (a b : Bit) (params : list param)
    (cn qn : string) (c : QuantumCircuit) :
  str_in nm two_qubit_macros = true ->
  has_register c (PyReg (ClassicalRegister 2 cn)) = true ->
  has_register c (PyReg (QuantumRegister 2 qn)) = true ->
  is_qubit_of c a = true -> is_qubit_of c b = true ->
  bits_nodup [a; b; mkBit (QuantumRegister 2 qn) 0; mkBit (QuantumRegister 2 qn) 1] = true ->
  addInstr nm (PyBit a) (PyBit b) params
    (PyReg (ClassicalRegister 2 cn)) (PyReg (QuantumRegister 2 qn)) c
  = (Ok tt,
     set_data c
       (data c ++
        [ GenEPR_op params (mkBit (QuantumRegister 2 qn) 0) (mkBit (QuantumRegister 2 qn) 1);
          macro_op nm params a b
            (mkBit (QuantumRegister 2 qn) 0) (mkBit (QuantumRegister 2 qn) 1)
            (mkBit (ClassicalRegister 2 cn) 0) (mkBit (ClassicalRegister 2 cn) 1) ])).
Proof.
  intros Hnm Hc Hq Ha Hb Hdup.
  now apply addInstr_macro_handles.
Qed.

Lemma addInstr_appends_macro_witness :
  addInstr "Teleport" (PyBit Ex.q0) (PyBit Ex.q1) []
    (PyReg (ClassicalRegister 2 "c_epr")) (PyReg (QuantumRegister 2 "q_epr")) Ex.mixed
  = (Ok tt,
     set_data Ex.mixed
       (data Ex.mixed ++
        [ GenEPR_op [] (mkBit (QuantumRegister 2 "q_epr") 0) (mkBit (QuantumRegister 2 "q_epr") 1);
          macro_op "Teleport" [] Ex.q0 Ex.q1
            (mkBit (QuantumRegister 2 "q_epr") 0) (mkBit (QuantumRegister 2 "q_epr") 1)
            (mkBit (ClassicalRegister 2 "c_epr") 0) (mkBit (ClassicalRegister 2 "c_epr") 1) ])).
Proof.
  apply (addInstr_appends_macro "Teleport" Ex.q0 Ex.q1 [] "c_epr" "q_epr" Ex.mixed);
    reflexivity.
Defined.

(** X11: with the registers given the same way, [addInstr] with the name
    ["GenEPR"] appends the one [GenEPR] instruction and nothing else,
    whatever is given for the two primary qubits, [None] included. *)
Theorem addInstr_GenEPR (qb1 qb2 : pyval) (params : list param)
    (cn qn : string) (c : QuantumCircuit) :
  has_register c (PyReg (ClassicalRegister 2 cn)) = true ->
  has_register c (PyReg (QuantumRegister 2 qn)) = true ->
  addInstr "GenEPR" qb1 qb2 params
    (PyReg (ClassicalRegister 2 cn)) (PyReg (QuantumRegister 2 qn)) c
  = (Ok tt,
     set_data c
       (data c ++
        [ GenEPR_op params (mkBit (QuantumRegister 2 qn) 0)
            (mkBit (QuantumRegister 2 qn) 1) ])).
Proof.
  intros Hc Hq.
  now rewrite (addInstr_with_handles "GenEPR" qb1 qb2 params cn qn c Hc Hq).
Qed.

Lemma addInstr_GenEPR_witness :
  addInstr "GenEPR" PyNone PyNone []
    (PyReg (ClassicalRegister 2 "c_epr")) (PyReg (QuantumRegister 2 "q_epr")) Ex.mixed
  = (Ok tt,
     set_data Ex.mixed
       (data Ex.mixed ++
        [ GenEPR_op [] (mkBit (QuantumRegister 2 "q_epr") 0)
            (mkBit (QuantumRegister 2 "q_epr") 1) ])).
Proof.
  apply (addInstr_GenEPR PyNone PyNone [] "c_epr" "q_epr" Ex.mixed); reflexivity.
Defined.

(** X12: with the registers given the same way and a known macro kind,
    a primary qubit that is [None] (the default) or a float makes the append
    of the macro instruction fail; the bare [except] turns this into the
    "Undefined instruction!" exception, and the [GenEPR] instruction
    appended before stays on the circuit. *)
Theorem addInstr_bad_operand (nm : string) (qb1 qb2 : pyval) (params : list param)
    (cn qn : string) (c : QuantumCircuit) :
  str_in nm two_qubit_macros = true ->
  has_register c (PyReg (ClassicalRegister 2 cn)) = true ->
  has_register c (PyReg (QuantumRegister 2 qn)) = true ->
  not_a_bit qb1 = true \/ not_a_bit qb2 = true ->
  addInstr nm qb1 qb2 params
    (PyReg (ClassicalRegister 2 cn)) (PyReg (QuantumRegister 2 qn)) c
  = (Raise undefined_instruction,
     set_data c
       (data c ++
        [ GenEPR_op params (mkBit (QuantumRegister 2 qn) 0)
            (mkBit (QuantumRegister 2 qn) 1) ])).
Proof.
  intros Hnm Hc Hq Hbad.
  rewrite (addInstr_with_handles nm qb1 qb2 params cn qn c Hc Hq).
  destruct (dict_get_macro params nm Hnm) as [Hget Hgen].
  unfold addInstr_tail. rewrite Hgen, Hget. cbn [negb].
  unfold try_except_raise, bind, lift, append. cbn [py_iter as_bits].
  destruct Hbad as [H|H].
  - now destruct qb1.
  - destruct qb2; try discriminate H; now destruct (as_bit qb1).
Qed.

Lemma addInstr_bad_operand_witness :
  addInstr "RemoteCX" PyNone PyNone []
    (PyReg (ClassicalRegister 2 "c_epr")) (PyReg (QuantumRegister 2 "q_epr")) Ex.mixed
  = (Raise undefined_instruction,
     set_data Ex.mixed
       (data Ex.mixed ++
        [ GenEPR_op [] (mkBit (QuantumRegister 2 "q_epr") 0)
            (mkBit (QuantumRegister 2 "q_epr") 1) ])).
Proof.
  apply (addInstr_bad_operand "RemoteCX" PyNone PyNone [] "c_epr" "q_epr" Ex.mixed);
    try reflexivity.
  left. reflexivity.
Defined.

(** ** What happens to the registers *)

Section Preserves.

Variable P : QuantumCircuit -> Prop.

(** [P] only looks at the registers, and adding a register keeps it. *)
Hypothesis P_set_data : forall c d, P c -> P (set_data c d).
Hypothesis P_add_register : forall r c c', add_register r c = (Ok tt, c') -> P c -> P c'.

Lemma preserves_bind {A B} (m : M A) (f : A -> M B) :
  preserves P m -> (forall a, preserves P (f a)) -> preserves P (bind m f).
Proof.
  intros Hm Hf c r c' Hrun Hc.
  destruct (bind_cases m f c c' r Hrun) as [[e [H _]]|[a [c1 [H1 H2]]]].
  - exact (Hm _ _ _ H Hc).
  - exact (Hf a _ _ _ H2 (Hm _ _ _ H1 Hc)).
Qed.

Lemma preserves_lift {A} (r : result A) : preserves P (lift r).
Proof. intros c r' c' H Hc. unfold lift in H. now inversion H; subst. Qed.

Lemma preserves_ret {A} (a : A) : preserves P (ret a).
Proof. intros c r' c' H Hc. unfold ret in H. now inversion H; subst. Qed.

Lemma preserves_append (i : Instruction) (qargs cargs : list pyval) :
  preserves P (append i qargs cargs).
Proof.
  intros c r c' Hrun Hc.
  destruct (append_cases i qargs cargs c) as [H|(qs & cs & _ & _ & _ & H)];
    rewrite H in Hrun; inversion Hrun; subst; auto.
Qed.

Lemma preserves_add_register (r : Register) : preserves P (add_register r).
Proof.
  intros c res c' Hrun Hc.
  destruct (add_register_cases r c) as [H|[c1 [H _]]]; rewrite H in Hrun;
    inversion Hrun; subst; [assumption|].
  exact (P_add_register r c c' H Hc).
Qed.

Lemma preserves_get_cregs (v : pyval) : preserves P (get_cregs v).
Proof.
  intros c r c' Hrun Hc. unfold get_cregs in Hrun.
  destruct (is_None v || negb _).
  - revert Hrun Hc. apply preserves_bind.
    + apply preserves_add_register.
    + intros a. apply preserves_ret.
  - unfold ret in Hrun. now inversion Hrun; subst.
Qed.

Lemma preserves_get_qregs (v : pyval) : preserves P (get_qregs v).
Proof.
  intros c r c' Hrun Hc. unfold get_qregs in Hrun.
  destruct (is_None v || negb _).
  - revert Hrun Hc. apply preserves_bind.
    + apply preserves_add_register.
    + intros a. apply preserves_ret.
  - unfold ret in Hrun. now inversion Hrun; subst.
Qed.

Lemma preserves_try_except_raise {A} (m : M A) (e : exn) :
  preserves P m -> preserves P (try_except_raise m e).
Proof.
  intros Hm c r c' Hrun Hc. unfold try_except_raise in Hrun.
  destruct (m c) as [[a|e'] c1] eqn:Hmc; inversion Hrun; subst;
    exact (Hm _ _ _ Hmc Hc).
Qed.

(** What [addInstr] does once the classical register is resolved. *)
Lemma preserves_addInstr_rest (nm : string) (qb1 qb2 : pyval) (params : list param)
    (epr_qreg : pyval) (cr : pyval * bool) :
  preserves P
    (qr <- get_qregs epr_qreg ;;
     let creg := fst cr in
     let qreg := fst qr in
     q0 <- lift (subscript qreg 0) ;;
     q1 <- lift (subscript qreg 1) ;;
     let qargs := [qb1; qb2; q0; q1] in
     (gen <- lift (dict_get (instrSet params) "GenEPR") ;;
      qs <- lift (py_iter qreg) ;;
      append gen qs []) ;;
     if negb (String.eqb nm "GenEPR")
     then try_except_raise
            (i <- lift (dict_get (instrSet params) nm) ;;
             cs <- lift (py_iter creg) ;;
             append i qargs cs)
            undefined_instruction
     else ret tt).
Proof.
  apply preserves_bind; [apply preserves_get_qregs|]. intros qr. cbv zeta.
  apply preserves_bind; [apply preserves_lift|]. intros q0.
  apply preserves_bind; [apply preserves_lift|]. intros q1.
  apply preserves_bind.
  { apply preserves_bind; [apply preserves_lift|]. intros gen.
    apply preserves_bind; [apply preserves_lift|]. intros qs.
    apply preserves_append. }
  intros _. destruct (negb (String.eqb nm "GenEPR")); [|apply preserves_ret].
  apply preserves_try_except_raise.
  apply preserves_bind; [apply preserves_lift|]. intros i.
  apply preserves_bind; [apply preserves_lift|]. intros cs.
  apply preserves_append.
Qed.

Lemma preserves_addInstr (nm : string) (qb1 qb2 : pyval) (params : list param)
    (epr_creg epr_qreg : pyval) :
  preserves P (addInstr nm qb1 qb2 params epr_creg epr_qreg).
Proof.
  unfold addInstr.
  apply preserves_bind; [apply preserves_get_cregs|]. intros cr.
  apply preserves_addInstr_rest.
Qed.

Lemma preserves_autosubstitute (reglist : list Bit * list Bit) (gates : list string)
    (epr_qreg epr_creg : pyval) :
  preserves P (autosubstitute reglist gates epr_qreg epr_creg).
Proof.
  intros c r c' Hrun Hc. rewrite autosubstitute_output in Hrun.
  revert Hrun Hc.
  apply preserves_bind; [apply preserves_get_cregs|]. intros cr.
  apply preserves_bind; [apply preserves_get_qregs|]. intros qr.
  intros c1 r1 c1' Hrun Hc. unfold autosubstitute_splice in Hrun.
  destruct (splice_all _ _); inversion Hrun; subst; auto.
Qed.

End Preserves.

Lemma name_in_use_set_data (s : string) (c : QuantumCircuit) (d : list op) :
  name_in_use s c = true -> name_in_use s (set_data c d) = true.
Proof. auto. Qed.

Lemma str_in_app (s : string) (l1 l2 : list string) :
  str_in s (l1 ++ l2) = str_in s l1 || str_in s l2.
Proof. unfold str_in. apply existsb_app. Qed.

Lemma name_in_use_add_register (s : string) (r : Register) (c c' : QuantumCircuit) :
  add_register r c = (Ok tt, c') -> name_in_use s c = true -> name_in_use s c' = true.
Proof.
  unfold add_register, name_in_use.
  destruct (str_in (rname r) _); [discriminate|].
  destruct (rkind r); intros H; inversion H; subst; simpl;
    rewrite !map_app, !str_in_app; intros Hs;
    apply orb_true_iff in Hs; destruct Hs as [-> | ->];
    rewrite ?orb_true_r; reflexivity.
Qed.

Lemma add_register_in_use (r : Register) (c c' : QuantumCircuit) :
  add_register r c = (Ok tt, c') -> name_in_use (rname r) c' = true.
Proof.
  unfold add_register, name_in_use.
  destruct (str_in (rname r) _); [discriminate|].
  destruct (rkind r); intros H; inversion H; subst; simpl;
    rewrite !map_app, !str_in_app; simpl; rewrite String.eqb_refl;
    rewrite ?orb_true_r; reflexivity.
Qed.

(** X13: the default registers can be provisioned once: after a call of
    [addInstr] that succeeded with both register arguments left to [None],
    every further call with both left to [None] raises the host library's
    error for a register name already in use, and changes nothing. *)
Theorem addInstr_defaults_once (nm nm' : string) (qb1 qb2 qb1' qb2' : pyval)
    (params params' : list param) (c c1 : QuantumCircuit) :
  addInstr nm qb1 qb2 params PyNone PyNone c = (Ok tt, c1) ->
  addInstr nm' qb1' qb2' params' PyNone PyNone c1 = (Raise CircuitError, c1).
Proof.
  intros Hrun.
  assert (Huse : name_in_use "c_epr" c1 = true).
  { unfold addInstr in Hrun.
    destruct (bind_cases _ _ _ _ _ Hrun) as [[e [_ He]]|[cr [c0 [H1 H2]]]];
      [discriminate|].
    assert (H0 : name_in_use "c_epr" c0 = true).
    { unfold get_cregs in H1. cbn [is_None orb] in H1.
      destruct (bind_cases _ _ _ _ _ H1) as [[e [_ He]]|[[] [c2 [Ha Hb]]]];
        [discriminate|].
      unfold ret in Hb. inversion Hb; subst.
      exact (add_register_in_use _ _ _ Ha). }
    revert H2 H0.
    apply (preserves_addInstr_rest (fun c => name_in_use "c_epr" c = true)).
    - intros; now apply name_in_use_set_data.
    - intros r ca cb. apply name_in_use_add_register. }
  unfold addInstr. apply bind_raise.
  unfold get_cregs. cbn [is_None orb]. apply bind_raise.
  unfold add_register. unfold name_in_use in Huse. cbn [rname ClassicalRegister].
  now rewrite Huse.
Qed.

Lemma addInstr_defaults_once_witness :
  addInstr "Teleport" (PyBit Ex.q1) (PyBit Ex.q0) [] PyNone PyNone
    (snd (addInstr "RemoteCX" (PyBit Ex.q0) (PyBit Ex.q1) [] PyNone PyNone Ex.bare))
  = (Raise CircuitError,
     snd (addInstr "RemoteCX" (PyBit Ex.q0) (PyBit Ex.q1) [] PyNone PyNone Ex.bare)).
Proof.
  apply (addInstr_defaults_once "RemoteCX" "Teleport" (PyBit Ex.q0) (PyBit Ex.q1)
           (PyBit Ex.q1) (PyBit Ex.q0) [] [] Ex.bare).
  reflexivity.
Defined.

(** X14: the utilities called with a name that is not the name of a
    2-unit register of their kind on the circuit behave as when called with
    [None], the name is not used: when no register is called [c_epr] (resp.
    [q_epr]) they append the 2-unit register of that fixed name to the
    registers of its kind and return it with the flag set, and when the
    fixed name is already in use they raise and leave the circuit as it
    was. *)
Theorem get_regs_provision (s : string) (c : QuantumCircuit) :
  has_register c (PyReg (ClassicalRegister 2 s)) = false ->
  has_register c (PyReg (QuantumRegister 2 s)) = false ->
  get_cregs (PyStr s) c = get_cregs PyNone c
  /\ get_qregs (PyStr s) c = get_qregs PyNone c
  /\ get_cregs PyNone c
     = (if name_in_use "c_epr" c then (Raise CircuitError, c)
        else (Ok (PyReg (ClassicalRegister 2 "c_epr"), true),
              mkCirc (qregs c) (cregs c ++ [ClassicalRegister 2 "c_epr"]) (data c)))
  /\ get_qregs PyNone c
     = (if name_in_use "q_epr" c then (Raise CircuitError, c)
        else (Ok (PyReg (QuantumRegister 2 "q_epr"), true),
              mkCirc (qregs c ++ [QuantumRegister 2 "q_epr"]) (cregs c) (data c))).
Proof.
  intros Hc Hq. repeat split.
  - unfold get_cregs. now rewrite Hc.
  - unfold get_qregs. now rewrite Hq.
  - unfold get_cregs, bind, add_register, name_in_use. cbn.
    now destruct (str_in "c_epr" _).
  - unfold get_qregs, bind, add_register, name_in_use. cbn.
    now destruct (str_in "q_epr" _).
Qed.

Lemma get_regs_provision_witness :
  get_cregs (PyStr "anc") Ex.bare = get_cregs PyNone Ex.bare
  /\ get_qregs (PyStr "anc") Ex.bare = get_qregs PyNone Ex.bare
  /\ get_cregs PyNone Ex.bare
     = (if name_in_use "c_epr" Ex.bare then (Raise CircuitError, Ex.bare)
        else (Ok (PyReg (ClassicalRegister 2 "c_epr"), true),
              mkCirc (qregs Ex.bare) (cregs Ex.bare ++ [ClassicalRegister 2 "c_epr"])
                (data Ex.bare)))
  /\ get_qregs PyNone Ex.bare
     = (if name_in_use "q_epr" Ex.bare then (Raise CircuitError, Ex.bare)
        else (Ok (PyReg (QuantumRegister 2 "q_epr"), true),
              mkCirc (qregs Ex.bare ++ [QuantumRegister 2 "q_epr"]) (cregs Ex.bare)
                (data Ex.bare))).
Proof.
  apply (get_regs_provision "anc" Ex.bare); reflexivity.
Defined.

(** ** Registers are only ever added *)

Lemma registers_extend_refl (c : QuantumCircuit) : registers_extend c c.
Proof. split; exists []; now rewrite app_nil_r. Qed.

Lemma registers_extend_set_data (c0 c : QuantumCircuit) (d : list op) :
  registers_extend c0 c -> registers_extend c0 (set_data c d).
Proof. auto. Qed.

Lemma registers_extend_add_register (c0 : QuantumCircuit) (r : Register)
    (c c' : QuantumCircuit) :
  add_register r c = (Ok tt, c') -> registers_extend c0 c -> registers_extend c0 c'.
Proof.
  unfold add_register. destruct (str_in _ _); [discriminate|].
  intros H [[l1 H1] [l2 H2]].
  destruct (rkind r); inversion H; subst; split; simpl; eauto.
  - exists (l1 ++ [r]). now rewrite H1, app_assoc.
  - exists (l2 ++ [r]). now rewrite H2, app_assoc.
Qed.

(** X15: whatever their outcome, [addInstr] and [autosubstitute] keep the
    registers that are on the circuit, in the same order, and can only add
    registers after them; [decompose] leaves the registers exactly as they
    are. *)
Theorem registers_only_added (c : QuantumCircuit) :
  (forall nm qb1 qb2 params epr_creg epr_qreg,
     registers_extend c (snd (addInstr nm qb1 qb2 params epr_creg epr_qreg c)))
  /\ (forall reglist gates epr_qreg epr_creg,
        registers_extend c (snd (autosubstitute reglist gates epr_qreg epr_creg c)))
  /\ (forall gates,
        qregs (snd (decompose gates c)) = qregs c
        /\ cregs (snd (decompose gates c)) = cregs c).
Proof.
  split; [|split].
  - intros nm qb1 qb2 ps epr_creg epr_qreg.
    destruct (addInstr nm qb1 qb2 ps epr_creg epr_qreg c) as [r c'] eqn:Hrun.
    apply (preserves_addInstr (registers_extend c)
             (registers_extend_set_data c) (registers_extend_add_register c)
             nm qb1 qb2 ps epr_creg epr_qreg c r c' Hrun).
    apply registers_extend_refl.
  - intros reglist gates epr_qreg epr_creg.
    destruct (autosubstitute reglist gates epr_qreg epr_creg c) as [r c'] eqn:Hrun.
    apply (preserves_autosubstitute (registers_extend c)
             (registers_extend_set_data c) (registers_extend_add_register c)
             reglist gates epr_qreg epr_creg c r c' Hrun).
    apply registers_extend_refl.
  - intros. rewrite decompose_output.
    now destruct (splice_all _ _).
Qed.

(** ** autosubstitute: nothing targeted, and registers given by name *)

Lemma splice_all_nothing_targeted (c : QuantumCircuit) (reglist : list Bit * list Bit)
    (gates : list string) (creg qreg : pyval) (l : list op) :
  (forall o, In o l -> targeted reglist gates o = false) ->
  splice_all (substitution c reglist gates creg qreg) l = Ok l.
Proof.
  induction l as [|o t IH]; intros H; [reflexivity|].
  cbn [splice_all]. rewrite IH by (intros; apply H; now right).
  pose proof (H o (or_introl eq_refl)) as Ht.
  unfold targeted in Ht. unfold substitution.
  destruct (op1 o) as [|a [|b [|]]]; try reflexivity.
  now rewrite Ht.
Qed.

(** X16: with the entanglement registers given as handles of registers of
    the circuit, [autosubstitute] returns a circuit in which no two-qubit
    instruction of a targeted kind has its operands one in each partition
    (the empty circuit, say, or any circuit when no kind is targeted)
    exactly as it is, without error. *)
Theorem autosubstitute_nothing_targeted (reglist : list Bit * list Bit)
    (gates : list string) (qr cr : Register) (c : QuantumCircuit) :
  has_register c (PyReg cr) = true ->
  has_register c (PyReg qr) = true ->
  (forall o, In o (data c) -> targeted reglist gates o = false) ->
  autosubstitute reglist gates (PyReg qr) (PyReg cr) c = (Ok tt, c).
Proof.
  intros Hc Hq Hno. rewrite autosubstitute_output.
  rewrite (bind_ok _ _ _ _ _ (get_cregs_handle cr c Hc)).
  rewrite (bind_ok _ _ _ _ _ (get_qregs_handle qr c Hq)).
  unfold autosubstitute_splice. cbn [fst].
  rewrite (splice_all_nothing_targeted c reglist gates _ _ (data c) Hno).
  now rewrite set_data_same.
Qed.

Lemma autosubstitute_nothing_targeted_witness :
  autosubstitute ([Ex.q0], [Ex.e0]) ["cx"] (PyReg Ex.q_epr) (PyReg Ex.c_epr) Ex.mixed
  = (Ok tt, Ex.mixed).
Proof.
  apply (autosubstitute_nothing_targeted ([Ex.q0], [Ex.e0]) ["cx"] Ex.q_epr Ex.c_epr Ex.mixed);
    try reflexivity.
  intros o Hin. simpl in Hin.
  repeat (destruct Hin as [<-|Hin]; [reflexivity|]). contradiction.
Defined.

Lemma splice_all_raises (f : op -> result (list op)) (l : list op) (o : op) :
  In o l -> (exists e, f o = Raise e) -> exists e, splice_all f l = Raise e.
Proof.
  intros Hin [e He]. induction l as [|a t IH]; [contradiction|].
  cbn [splice_all]. destruct (f a) as [ch|e'] eqn:Hfa; [|eauto].
  destruct Hin as [->|Hin]; [congruence|].
  destruct (IH Hin) as [e1 ->]. eauto.
Qed.

Lemma addInstr_by_name_raises (nm : string) (qb1 qb2 : pyval) (params : list param)
    (cn qn : string) (c : QuantumCircuit) :
  has_register c (PyReg (ClassicalRegister 2 cn)) = true ->
  has_register c (PyReg (QuantumRegister 2 qn)) = true ->
  exists e, addInstr nm qb1 qb2 params (PyStr cn) (PyStr qn) c = (Raise e, c).
Proof.
  intros Hc Hq. unfold addInstr.
  rewrite (bind_ok _ _ _ _ _ (get_cregs_name cn c Hc)).
  rewrite (bind_ok _ _ _ _ _ (get_qregs_name qn c Hq)). cbn [fst].
  destruct qn as [|a [|b qn]].
  - exists IndexError. reflexivity.
  - exists IndexError. reflexivity.
  - exists CircuitError. reflexivity.
Qed.

(** X17: with the entanglement registers given by the names of 2-unit
    registers of the circuit, [autosubstitute] raises as soon as the circuit
    has a CNOT of a targeted kind with its operands one in each partition,
    and leaves the circuit as it was: nothing is substituted. *)
Theorem autosubstitute_by_name_fails (reglist : list Bit * list Bit)
    (gates : list string) (cn qn : string) (c : QuantumCircuit) (o : op) :
  has_register c (PyReg (ClassicalRegister 2 cn)) = true ->
  has_register c (PyReg (QuantumRegister 2 qn)) = true ->
  In o (data c) -> targeted reglist gates o = true -> name (op0 o) = "cx" ->
  exists e, autosubstitute reglist gates (PyStr qn) (PyStr cn) c = (Raise e, c).
Proof.
  intros Hc Hq Hin Ht Hcx. rewrite autosubstitute_output.
  rewrite (bind_ok _ _ _ _ _ (get_cregs_name cn c Hc)).
  rewrite (bind_ok _ _ _ _ _ (get_qregs_name qn c Hq)).
  unfold autosubstitute_splice. cbn [fst].
  destruct (splice_all_raises (substitution c reglist gates (PyStr cn) (PyStr qn))
              (data c) o Hin) as [e ->]; [|eauto].
  unfold substitution. unfold targeted in Ht.
  destruct (op1 o) as [|a [|b [|]]]; try discriminate.
  rewrite Ht, Hcx. cbn [String.eqb Ascii.eqb Bool.eqb].
  unfold run_on.
  destruct (addInstr_by_name_raises "RemoteCX" (PyBit a) (PyBit b) [] cn qn (emptied c))
    as [e ->]; eauto.
Qed.

Lemma autosubstitute_by_name_fails_witness :
  exists e,
    autosubstitute ([Ex.r0; Ex.r2], [Ex.r1]) ["cx"] (PyStr "q_epr") (PyStr "c_epr")
      Ex.partitioned
    = (Raise e, Ex.partitioned).
Proof.
  apply (autosubstitute_by_name_fails ([Ex.r0; Ex.r2], [Ex.r1]) ["cx"] "c_epr" "q_epr"
           Ex.partitioned (Ex.cx_op Ex.r1 Ex.r0)); try reflexivity.
  simpl. right. left. reflexivity.
Defined.

(** ** The builders only append *)

Lemma extended_from_snoc (d0 d : list op) (i : Instruction) (qs cs : list Bit) :
  In (name i) primitive_kinds ->
  extended_from d0 d -> extended_from d0 (d ++ [(i, qs, cs)]).
Proof.
  intros Hi (l & -> & Hne & Hall).
  exists (l ++ [(i, qs, cs)]). rewrite app_assoc. split; [reflexivity|]. split.
  - destruct l; discriminate.
  - now apply all_primitive_snoc.
Qed.

Lemma extended_from_set_last_condition (d0 d : list op) (cnd : Bit * nat) :
  extended_from d0 d -> extended_from d0 (set_last_condition cnd d).
Proof.
  intros (l & -> & Hne & Hall).
  destruct (exists_last Hne) as (l' & o & ->).
  rewrite app_assoc, set_last_condition_snoc, <- app_assoc.
  exists (l' ++ [with_condition cnd o]). split; [reflexivity|]. split.
  - destruct l'; discriminate.
  - unfold all_primitive in *. apply Forall_app in Hall. destruct Hall as [H1 H2].
    apply Forall_app. split; [assumption|].
    inversion H2; subst. constructor; [assumption | constructor].
Qed.

Ltac keeps_extended :=
  repeat first
    [ apply keeps_c_if; intros; now apply extended_from_set_last_condition
    | apply keeps_append; intros; apply extended_from_snoc;
      [simpl; repeat ((left; reflexivity) || right) | assumption]
    | apply keeps_lift
    | apply keeps_ret
    | apply keeps_raise
    | apply keeps_bind; [|intro] ].

Lemma preserves_c_if (P : QuantumCircuit -> Prop) (cb : result pyval) (v : nat) :
  (forall c d, P c -> P (set_data c d)) -> preserves P (c_if cb v).
Proof.
  intros HP c r c' Hrun Hc.
  destruct (c_if_cases cb v c) as [[e H]|(b & _ & _ & H)];
    rewrite H in Hrun; inversion Hrun; subst; auto.
Qed.

Lemma same_registers_set_data (c0 c : QuantumCircuit) (d : list op) :
  same_registers c0 c -> same_registers c0 (set_data c d).
Proof. auto. Qed.

Ltac preserves_registers :=
  repeat first
    [ apply preserves_c_if; apply same_registers_set_data
    | apply preserves_append; apply same_registers_set_data
    | apply preserves_lift
    | apply preserves_ret
    | apply preserves_bind; [|intro] ].

(** A first gate followed by steps that keep an extended sequence
    extended. *)
Lemma first_gate_then (i : Instruction) (qargs cargs : list pyval) (rest : M unit)
    (c c' : QuantumCircuit) (r : result unit) :
  In (name i) primitive_kinds ->
  (forall d0, keeps (extended_from d0) rest) ->
  (append i qargs cargs ;; rest) c = (r, c') ->
  exists l, data c' = data c ++ l /\ all_primitive l.
Proof.
  intros Hi Hrest Hrun.
  destruct (bind_cases _ _ _ _ _ Hrun) as [[e [H _]]|[[] [c1 [H1 H2]]]].
  - destruct (append_cases i qargs cargs c) as [Ha|(qs & cs & _ & _ & _ & Ha)];
      rewrite Ha in H; inversion H; subst.
    exists []. rewrite app_nil_r. split; [reflexivity | constructor].
  - destruct (append_cases i qargs cargs c) as [Ha|(qs & cs & _ & _ & _ & Ha)];
      rewrite Ha in H1; inversion H1; subst.
    destruct (Hrest (data c) _ _ _ H2) as (l & Hl & _ & Hall).
    + exists [(i, qs, cs)]. simpl. split; [reflexivity|]. split; [discriminate|].
      constructor; [exact Hi | constructor].
    + exists l. auto.
Qed.

Lemma first_rz_then (theta : result param) (q : pyval) (rest : M unit)
    (c c' : QuantumCircuit) (r : result unit) :
  (forall d0, keeps (extended_from d0) rest) ->
  (rz theta q ;; rest) c = (r, c') ->
  exists l, data c' = data c ++ l /\ all_primitive l.
Proof.
  intros Hrest Hrun. destruct theta as [t|e].
  - apply (first_gate_then (gate "rz" [t]) [q] [] rest c c' r); auto.
    simpl. repeat ((left; reflexivity) || right).
  - unfold rz, bind, lift in Hrun. inversion Hrun; subst.
    exists []. rewrite app_nil_r. split; [reflexivity | constructor].
Qed.

Lemma only_appended_of (m : M unit) (c : QuantumCircuit) :
  preserves (same_registers c) m ->
  (forall r c', m c = (r, c') -> exists l, data c' = data c ++ l /\ all_primitive l) ->
  only_appended c (snd (m c)).
Proof.
  intros Hregs Hdata.
  pose proof (Hregs c (fst (m c)) (snd (m c))) as Hr.
  pose proof (Hdata (fst (m c)) (snd (m c))) as Hd.
  destruct (m c) as [r c']. cbn [fst snd] in *.
  destruct (Hr eq_refl) as [Hq Hc]; [split; reflexivity|].
  unfold only_appended. auto.
Qed.

Ltac unfold_gates := unfold h, x, z, rz, cnot, swap, measure, gate.

(** X18: whatever their outcome, and whatever is given for the classical
    bits and for the angle, the five builders called with qubit operands
    that are single values (a bit, which may be off the circuit or given
    twice, [None] or a float) leave the registers and the instructions of
    the circuit as they are and only append instructions of primitive kinds
    after them. *)
Theorem builders_only_append (c : QuantumCircuit) :
  (forall a b,
     single_value a = true -> single_value b = true ->
     only_appended c (snd (setAncilla a b c)))
  /\ (forall p a b e0 e1 cr,
        single_value a = true -> single_value b = true ->
        single_value e0 = true -> single_value e1 = true ->
        only_appended c (snd (buildRemoteCRZ p a b e0 e1 cr c)))
  /\ (forall p a b e0 e1 cr,
        single_value a = true -> single_value b = true ->
        single_value e0 = true -> single_value e1 = true ->
        only_appended c (snd (buildRemoteZZ p a b e0 e1 cr c)))
  /\ (forall a b e0 e1 cr,
        single_value a = true -> single_value b = true ->
        single_value e0 = true -> single_value e1 = true ->
        only_appended c (snd (buildRemoteCX a b e0 e1 cr c)))
  /\ (forall a b e0 e1 cr,
        single_value a = true -> single_value b = true ->
        single_value e0 = true -> single_value e1 = true ->
        only_appended c (snd (buildTeleportation a b e0 e1 cr c))).
Proof.
  split; [|split; [|split; [|split]]]; intros; apply only_appended_of.
  - unfold setAncilla. unfold_gates. preserves_registers.
  - intros r c' Hrun. unfold setAncilla in Hrun. unfold h in Hrun.
    apply (fun H1 H2 => first_gate_then _ _ _ _ _ _ _ H1 H2 Hrun);
      [simpl; repeat ((left; reflexivity) || right)
      | intro; unfold_gates; keeps_extended].
  - unfold buildRemoteCRZ. unfold_gates. preserves_registers.
  - intros r c' Hrun. unfold buildRemoteCRZ in Hrun.
    apply (fun H1 => first_rz_then _ _ _ _ _ _ H1 Hrun).
    intro; unfold_gates; keeps_extended.
  - unfold buildRemoteZZ. unfold_gates. preserves_registers.
  - intros r c' Hrun. unfold buildRemoteZZ in Hrun. unfold cnot at 1 in Hrun.
    apply (fun H1 H2 => first_gate_then _ _ _ _ _ _ _ H1 H2 Hrun);
      [simpl; repeat ((left; reflexivity) || right)
      | intro; unfold_gates; keeps_extended].
  - unfold buildRemoteCX. unfold_gates. preserves_registers.
  - intros r c' Hrun. unfold buildRemoteCX in Hrun. unfold cnot at 1 in Hrun.
    apply (fun H1 H2 => first_gate_then _ _ _ _ _ _ _ H1 H2 Hrun);
      [simpl; repeat ((left; reflexivity) || right)
      | intro; unfold_gates; keeps_extended].
  - unfold buildTeleportation. unfold_gates. preserves_registers.
  - intros r c' Hrun. unfold buildTeleportation in Hrun. unfold cnot at 1 in Hrun.
    apply (fun H1 H2 => first_gate_then _ _ _ _ _ _ _ H1 H2 Hrun);
      [simpl; repeat ((left; reflexivity) || right)
      | intro; unfold_gates; keeps_extended].
Qed.

Lemma builders_only_append_witness :
  only_appended Ex.mixed
    (snd (buildRemoteCX (PyBit Ex.q0) PyNone (PyBit Ex.e0) (PyBit Ex.e1)
            (PyReg Ex.c_epr) Ex.mixed)).
Proof.
  apply (proj1 (proj2 (proj2 (proj2 (builders_only_append Ex.mixed))))
           (PyBit Ex.q0) PyNone (PyBit Ex.e0) (PyBit Ex.e1) (PyReg Ex.c_epr));
    reflexivity.
Defined.

(** ** Every outcome of addInstr *)

Lemma dict_get_ok (params : list param) (nm : string) (i : Instruction) :
  String.eqb nm "GenEPR" = false ->
  dict_get (instrSet params) nm = Ok i ->
  str_in nm two_qubit_macros = true /\ i = mkInstr nm 4 2 params None.
Proof.
  intros Hgen. unfold instrSet. cbn [dict_get].
  destruct (String.eqb "RemoteCX" nm) eqn:H1.
  { apply String.eqb_eq in H1. subst nm. intros H. now inversion H. }
  destruct (String.eqb "RemoteRZZ" nm) eqn:H2.
  { apply String.eqb_eq in H2. subst nm. intros H. now inversion H. }
  destruct (String.eqb "RemoteCRZ" nm) eqn:H3.
  { apply String.eqb_eq in H3. subst nm. intros H. now inversion H. }
  destruct (String.eqb "Teleport" nm) eqn:H4.
  { apply String.eqb_eq in H4. subst nm. intros H. now inversion H. }
  rewrite String.eqb_sym, Hgen. discriminate.
Qed.

(** X19: every call of [addInstr] in which the two primary qubits are
    single values (a bit, [None] or a float) and a register given by handle
    has two units ends in one of three ways.  It succeeds,
    and the instruction sequence is the old one followed by a [GenEPR]
    instruction on two qubits and, unless the name is ["GenEPR"], by the
    macro instruction of the given name, one of the four two-qubit macro
    kinds, on the two primary qubits and the same two qubits.  Or it raises
    "Undefined instruction!", and the sequence is the old one followed by the
    [GenEPR] instruction alone.  Or it raises another exception, and the
    sequence is unchanged. *)
Theorem addInstr_outcomes (nm : string) (qb1 qb2 : pyval) (params : list param)
    (epr_creg epr_qreg : pyval) (c : QuantumCircuit) :
  single_value qb1 = true -> single_value qb2 = true ->
  two_units epr_creg = true -> two_units epr_qreg = true ->
  match addInstr nm qb1 qb2 params epr_creg epr_qreg c with
  | (Ok _, c') =>
      exists e0 e1,
        (nm = "GenEPR" /\ data c' = data c ++ [GenEPR_op params e0 e1])
        \/ (str_in nm two_qubit_macros = true
            /\ exists a b k0 k1,
                 qb1 = PyBit a /\ qb2 = PyBit b
                 /\ data c' = data c ++ [GenEPR_op params e0 e1;
                                         macro_op nm params a b e0 e1 k0 k1])
  | (Raise e, c') =>
      (e = undefined_instruction
       /\ exists e0 e1, data c' = data c ++ [GenEPR_op params e0 e1])
      \/ (early_failure e /\ data c' = data c)
  end.
Proof.
  intros _ _ _ _.
  destruct (addInstr_stages nm qb1 qb2 params epr_creg epr_qreg c)
    as [(e & c1 & He & Hs & Hd)
       |(creg & qreg & q0 & q1 & e0 & e1 & c1 & Hd & H0 & H1 & Hit & Hs)];
    rewrite Hs; [now right|].
  destruct (subscript_of_pair qreg q0 q1 e0 e1 Hit H0 H1) as [-> ->].
  unfold addInstr_tail.
  destruct (String.eqb nm "GenEPR") eqn:Hgen; cbn [negb].
  { apply String.eqb_eq in Hgen. unfold ret. exists e0, e1. left.
    split; [assumption|]. simpl. now rewrite Hd. }
  unfold try_except_raise, bind, lift.
  destruct (dict_get (instrSet params) nm) as [i|e] eqn:Hget.
  2:{ left. split; [reflexivity|]. exists e0, e1. simpl. now rewrite Hd. }
  destruct (dict_get_ok params nm i Hgen Hget) as [Hnm ->].
  destruct (py_iter_cases creg) as [[l Hl]|Hl]; rewrite Hl.
  2:{ left. split; [reflexivity|]. exists e0, e1. simpl. now rewrite Hd. }
  match goal with
  | |- context [append ?i ?qa ?ca ?c] =>
      destruct (append_cases i qa ca c) as [Ha|(qs & cs & Hqs & Hcs & Hok & Ha)]
  end; rewrite Ha.
  { left. split; [reflexivity|]. exists e0, e1. simpl. now rewrite Hd. }
  exists e0, e1. right. split; [assumption|].
  destruct qb1 as [| | |a| |]; try discriminate.
  destruct qb2 as [| | |b| |]; try discriminate.
  simpl in Hqs. inversion Hqs; subst qs.
  destruct (append_ok_two_cargs _ (mkInstr nm 4 2 params None) _ _ eq_refl Hok)
    as (k0 & k1 & ->).
  exists a, b, k0, k1. repeat split. simpl. rewrite Hd, <- app_assoc. reflexivity.
Qed.

Lemma addInstr_outcomes_witness :
  match addInstr "RemoteCX" PyNone (PyBit Ex.q1) [] PyNone PyNone Ex.bare with
  | (Ok _, c') =>
      exists e0 e1,
        ("RemoteCX" = "GenEPR" /\ data c' = data Ex.bare ++ [GenEPR_op [] e0 e1])
        \/ (str_in "RemoteCX" two_qubit_macros = true
            /\ exists a b k0 k1,
                 PyNone = PyBit a /\ PyBit Ex.q1 = PyBit b
                 /\ data c' = data Ex.bare ++ [GenEPR_op [] e0 e1;
                                               macro_op "RemoteCX" [] a b e0 e1 k0 k1])
  | (Raise e, c') =>
      (e = undefined_instruction
       /\ exists e0 e1, data c' = data Ex.bare ++ [GenEPR_op [] e0 e1])
      \/ (early_failure e /\ data c' = data Ex.bare)
  end.
Proof.
  apply (addInstr_outcomes "RemoteCX" PyNone (PyBit Ex.q1) [] PyNone PyNone Ex.bare);
    reflexivity.
Defined.

(** ** autosubstitute, and autosubstitute followed by decompose *)

(** X20: with the entanglement registers given as handles of 2-unit
    registers of the circuit, and every CNOT to be substituted on two qubits
    of the circuit that differ from each other and from the two ancillas,
    [autosubstitute] succeeds; each such CNOT is replaced in place by a
    [GenEPR] instruction on the ancillas and a RemoteCX on its two operands,
    in their order, the ancillas and the two classical bits; instructions of
    another targeted kind with operands one in each partition are removed;
    every other instruction stays. *)
Theorem autosubstitute_substitutes (reglist : list Bit * list Bit) (gates : list string)
    (qn cn : string) (c : QuantumCircuit) :
  has_register c (PyReg (ClassicalRegister 2 cn)) = true ->
  has_register c (PyReg (QuantumRegister 2 qn)) = true ->
  (forall o, In o (data c) -> targeted reglist gates o = true ->
     name (op0 o) = "cx" -> substitutable c qn o = true) ->
  autosubstitute reglist gates
    (PyReg (QuantumRegister 2 qn)) (PyReg (ClassicalRegister 2 cn)) c
  = (Ok tt, set_data c (flat_map (substituted reglist gates qn cn) (data c))).
Proof.
  intros Hc Hq H. rewrite autosubstitute_output.
  rewrite (bind_ok _ _ _ _ _ (get_cregs_handle _ c Hc)).
  rewrite (bind_ok _ _ _ _ _ (get_qregs_handle _ c Hq)).
  unfold autosubstitute_splice. cbn [fst].
  now rewrite (splice_all_substituted c reglist gates qn cn (data c) Hc Hq H).
Qed.

Lemma autosubstitute_substitutes_witness :
  autosubstitute ([Ex.r0; Ex.r2], [Ex.r1]) ["cx"]
    (PyReg (QuantumRegister 2 "q_epr")) (PyReg (ClassicalRegister 2 "c_epr")) Ex.partitioned
  = (Ok tt,
     set_data Ex.partitioned
       (flat_map (substituted ([Ex.r0; Ex.r2], [Ex.r1]) ["cx"] "q_epr" "c_epr")
          (data Ex.partitioned))).
Proof.
  apply (autosubstitute_substitutes ([Ex.r0; Ex.r2], [Ex.r1]) ["cx"] "q_epr" "c_epr"
           Ex.partitioned); try reflexivity.
  intros o Hin _ _. simpl in Hin.
  repeat (destruct Hin as [<-|Hin]; [reflexivity|]). contradiction.
Defined.

Lemma Register_eqb_sym (a b : Register) : Register_eqb a b = Register_eqb b a.
Proof.
  apply eq_true_iff_eq. rewrite !Register_eqb_eq. split; congruence.
Qed.

Lemma Bit_eqb_sym (a b : Bit) : Bit_eqb a b = Bit_eqb b a.
Proof.
  apply eq_true_iff_eq. rewrite !Bit_eqb_eq. split; congruence.
Qed.

Lemma substituted_well_formed (c : QuantumCircuit) (reglist : list Bit * list Bit)
    (gates : list string) (qn cn : string) (d : list op) (o o' : op) :
  has_register c (PyReg (ClassicalRegister 2 cn)) = true ->
  has_register c (PyReg (QuantumRegister 2 qn)) = true ->
  kind_in default_gates o = false ->
  (targeted reglist gates o = true -> name (op0 o) = "cx" -> substitutable c qn o = true) ->
  In o' (substituted reglist gates qn cn o) ->
  kind_in default_gates o' = true ->
  well_formed_macro (set_data c d) o' = true.
Proof.
  intros Hc Hq Hk Hsub Hin Hk'.
  pose proof (is_qubit_of_register c qn 0 Hq ltac:(lia)) as H0.
  pose proof (is_qubit_of_register c qn 1 Hq ltac:(lia)) as H1.
  pose proof (is_clbit_of_register c cn 0 Hc ltac:(lia)) as Hc0.
  pose proof (is_clbit_of_register c cn 1 Hc ltac:(lia)) as Hc1.
  pose proof (Bit_eqb_indices (QuantumRegister 2 qn) 0 1 eq_refl) as Hne.
  unfold substituted, targeted, substitutable, kind_in in *.
  destruct (op1 o) as [|a [|b [|]]];
    try (destruct Hin as [<-|[]]; congruence).
  destruct (str_in (name (op0 o)) gates && straddles reglist a b);
    [|destruct Hin as [<-|[]]; congruence].
  destruct (String.eqb (name (op0 o)) "cx") eqn:Hcx; [|contradiction].
  apply String.eqb_eq in Hcx. specialize (Hsub eq_refl Hcx).
  apply andb_true_iff in Hsub. destruct Hsub as [Hab Hdup].
  apply andb_true_iff in Hab. destruct Hab as [Ha Hb].
  cbn [bits_nodup bit_in existsb] in Hdup.
  rewrite !orb_false_r in Hdup.
  repeat (apply andb_true_iff in Hdup; destruct Hdup as [? Hdup]).
  repeat match goal with
         | H : negb (_ || _) = true |- _ =>
             apply negb_true_iff in H; apply orb_false_iff in H; destruct H
         | H : negb _ = true |- _ => apply negb_true_iff in H
         | H : _ || _ = false |- _ => apply orb_false_iff in H; destruct H
         end.
  destruct Hin as [<-|[<-|[]]].
  - unfold well_formed_macro, GenEPR_op. cbn -[is_qubit_of Bit_eqb].
    rewrite !is_qubit_of_set_data, H0, H1, Hne. reflexivity.
  - unfold well_formed_macro, macro_op, valid_operands.
    cbn -[is_qubit_of is_clbit_of Bit_eqb].
    rewrite !is_qubit_of_set_data, !is_clbit_of_set_data, Ha, Hb, H0, H1, Hc0, Hc1.
    rewrite (Bit_eqb_sym (mkBit (QuantumRegister 2 qn) 1) b).
    repeat match goal with
           | H : Bit_eqb _ _ = false |- _ => rewrite H
           end.
    reflexivity.
Qed.

Lemma expanded_substituted (reglist : list Bit * list Bit) (gates : list string)
    (qn cn : string) (l : list op) :
  (forall o, In o l -> kind_in default_gates o = false) ->
  expanded (flat_map (substituted reglist gates qn cn) l)
  = flat_map (substituted_expanded reglist gates qn cn) l.
Proof.
  unfold expanded. induction l as [|o t IH]; intros H; [reflexivity|].
  cbn [flat_map]. rewrite flat_map_app, IH by (intros; apply H; now right).
  f_equal.
  pose proof (H o (or_introl eq_refl)) as Hk.
  unfold substituted, substituted_expanded.
  destruct (op1 o) as [|a [|b [|]]]; cbn [flat_map]; rewrite ?Hk, ?app_nil_r;
    try reflexivity.
  destruct (kind_in gates o && straddles reglist a b);
    [|cbn [flat_map]; now rewrite Hk, app_nil_r].
  destruct (String.eqb (name (op0 o)) "cx"); reflexivity.
Qed.

(** X21: under the conditions of the substitution above, on a circuit
    without macro instructions, [autosubstitute] followed by [decompose]
    with the default kinds succeeds, and replaces in place each CNOT whose
    operands lie one in each partition by the twelve instructions that
    prepare the pair on the ancillas and run the remote CX protocol on its
    operands; the other instructions are as [autosubstitute] leaves them. *)
Theorem autosubstitute_then_decompose (reglist : list Bit * list Bit)
    (gates : list string) (qn cn : string) (c : QuantumCircuit) :
  has_register c (PyReg (ClassicalRegister 2 cn)) = true ->
  has_register c (PyReg (QuantumRegister 2 qn)) = true ->
  (forall o, In o (data c) -> kind_in default_gates o = false) ->
  (forall o, In o (data c) -> targeted reglist gates o = true ->
     name (op0 o) = "cx" -> substitutable c qn o = true) ->
  (autosubstitute reglist gates
     (PyReg (QuantumRegister 2 qn)) (PyReg (ClassicalRegister 2 cn)) ;;
   decompose default_gates) c
  = (Ok tt, set_data c (flat_map (substituted_expanded reglist gates qn cn) (data c))).
Proof.
  intros Hc Hq Hk H.
  assert (Hauto : autosubstitute reglist gates
                    (PyReg (QuantumRegister 2 qn)) (PyReg (ClassicalRegister 2 cn)) c
                  = (Ok tt, set_data c (flat_map (substituted reglist gates qn cn) (data c)))).
  { rewrite autosubstitute_output.
    rewrite (bind_ok _ _ _ _ _ (get_cregs_handle _ c Hc)).
    rewrite (bind_ok _ _ _ _ _ (get_qregs_handle _ c Hq)).
    unfold autosubstitute_splice. cbn [fst].
    now rewrite (splice_all_substituted c reglist gates qn cn (data c) Hc Hq H). }
  rewrite (bind_ok _ _ _ _ _ Hauto).
  rewrite decompose_output. cbn [data set_data].
  rewrite splice_all_well_formed.
  - now rewrite (expanded_substituted reglist gates qn cn (data c) Hk).
  - intros o' Hin Hk'. apply in_flat_map in Hin. destruct Hin as (o & Ho & Hin).
    exact (substituted_well_formed c reglist gates qn cn _ o o' Hc Hq (Hk o Ho)
             (H o Ho) Hin Hk').
Qed.

Lemma autosubstitute_then_decompose_witness :
  (autosubstitute ([Ex.r0; Ex.r2], [Ex.r1]) ["cx"]
     (PyReg (QuantumRegister 2 "q_epr")) (PyReg (ClassicalRegister 2 "c_epr")) ;;
   decompose default_gates) Ex.partitioned
  = (Ok tt,
     set_data Ex.partitioned
       (flat_map (substituted_expanded ([Ex.r0; Ex.r2], [Ex.r1]) ["cx"] "q_epr" "c_epr")
          (data Ex.partitioned))).
Proof.
  apply (autosubstitute_then_decompose ([Ex.r0; Ex.r2], [Ex.r1]) ["cx"] "q_epr" "c_epr"
           Ex.partitioned); try reflexivity.
  - intros o Hin. simpl in Hin.
    repeat (destruct Hin as [<-|Hin]; [reflexivity|]). contradiction.
  - intros o Hin _ _. simpl in Hin.
    repeat (destruct Hin as [<-|Hin]; [reflexivity|]). contradiction.
Defined.
